(** * Root reducer of the state partitioner: [combineOtherReducers],
      [createReducer] and [getInitialState]

    A shallow embedding of the reducer module (the TypeScript file that
    exports [combineOtherReducers], [createReducer] and [getInitialState]) and
    the properties of it that the specification states.

    - JavaScript values are an inductive type.  A number is a binary64 float
      in the representation of [SpecFloat]; symbols and bigints are left out.
    - An object is a reference (its identity) together with its own
      properties in [Object.keys] order.  The module never mutates an object
      that has left the function that built it, so an object value carries its
      properties with it.
    - Code that builds an object runs in a small monad that numbers the
      objects it allocates, records every call of a user-supplied reducer, and
      may throw.
    - A user-supplied reducer is a function of its two arguments: it does not
      throw, and an object it returns has an identity of the kind [Given].
    - [is], [isPartAction] and [isReducersMap] are imported by the module and
      not part of the sources: [is] is modelled from the specification, the
      two predicates are parameters.
    - The part map is a plain object: its own entries are a finite map from
      part identifiers to parts, and a read of a name it does not own falls
      through to [Object.prototype] (see [partsReducer]).  The reads of a
      state object or of a reducers map are reads of own properties. *)

From Stdlib Require Import Strings.Ascii Strings.String Floats.SpecFloat ZArith DecimalString.
From stdpp Require Import base option list strings gmap.

Open Scope string_scope.

(** ** Values *)

(** The identity of an object.  [Fresh n] is the [n]-th object allocated by
    the code of this module; [Given n] is an object made elsewhere, by a reducer
    or by the caller.  Allocation never returns the address of a live object,
    so the two kinds never coincide. *)
Inductive ref : Type :=
| Fresh (n : nat)
| Given (n : nat).

#[export] Instance ref_eq_dec : EqDecision ref.
Proof. solve_decision. Defined.

(** JavaScript values that reducers exchange.  Symbols and bigints are left
    out; functions only occur where the module expects them (see [entry] and
    [OtherReducer] below). *)
#[warnings="-register-all"] Inductive value : Type :=
| VUndefined
| VNull
| VBool (b : bool)
| VNum (x : spec_float)
| VStr (s : string)
| VObj (r : ref) (ps : list (string * value)).

(** An object's own enumerable string-keyed properties, in the order
    [Object.keys] lists them.  Integer-like keys, which JavaScript lists
    first, are not reordered here: a statement about the key order of an
    object built from names of the caller's choice is made for the names
    that [appendedKey] accepts. *)
Definition object (A : Type) := list (string * A).

Definition props := object value.

Record Obj := mkObj { oref : ref; oprops : props }.

Definition obj_value (o : Obj) : value := VObj (oref o) (oprops o).

Definition state_value (s : option Obj) : value :=
  match s with Some o => obj_value o | None => VUndefined end.

(** An action is an object; only its properties matter. *)
Definition Action := props.

Section Objects.
Context {A : Type}.

(** [Object.keys(obj)] *)
Definition keys (obj : object A) : list string := map fst obj.

(** [obj[key]] as an own-property lookup; [None] when the key is absent. *)
Fixpoint prop (obj : object A) (key : string) : option A :=
  match obj with
  | [] => None
  | (k, v) :: rest => if String.eqb k key then Some v else prop rest key
  end.

(** [obj[key] = v]: an existing key keeps its place, a new key goes last. *)
Fixpoint assign (obj : object A) (key : string) (v : A) : object A :=
  match obj with
  | [] => [(key, v)]
  | (k, w) :: rest =>
      if String.eqb k key then (k, v) :: rest else (k, w) :: assign rest key v
  end.

(** [key in obj], for own properties. *)
Definition has (obj : object A) (key : string) : bool :=
  match prop obj key with Some _ => true | None => false end.

(** [{...base, ...extra}] *)
Definition spread (base extra : object A) : object A :=
  fold_left (fun acc kv => assign acc (fst kv) (snd kv)) extra base.
End Objects.

(** [obj[key]] read as a value: a missing property reads as [undefined]. *)
Definition get (obj : props) (key : string) : value :=
  match prop obj key with Some v => v | None => VUndefined end.

Definition is_undefined (v : value) : bool :=
  match v with VUndefined => true | _ => false end.

(** ToBoolean *)
Definition truthy (v : value) : bool :=
  match v with
  | VUndefined | VNull => false
  | VBool b => b
  | VNum (S754_zero _) | VNum S754_nan => false
  | VNum _ => true
  | VStr s => negb (String.eqb s EmptyString)
  | VObj _ _ => true
  end.

(** [typeof v] *)
Definition typeof (v : value) : string :=
  match v with
  | VUndefined => "undefined"
  | VNull => "object"
  | VBool _ => "boolean"
  | VNum _ => "number"
  | VStr _ => "string"
  | VObj _ _ => "object"
  end.

Definition isNaN (x : spec_float) : bool :=
  match x with S754_nan => true | _ => false end.

(** Modelled from the spec: [is] of the package diviso-shared, which is not
    part of the sources ([is] is reserved in Rocq, hence [is_]).  Section 4.3:
    strict equality plus NaN-equals-NaN, a single-level comparison and not deep
    equality; two objects are equal when they are the same reference. *)
Definition is_ (a b : value) : bool :=
  match a, b with
  | VUndefined, VUndefined => true
  | VNull, VNull => true
  | VBool x, VBool y => Bool.eqb x y
  | VNum x, VNum y => SFeqb x y || (isNaN x && isNaN y)
  | VStr x, VStr y => String.eqb x y
  | VObj r _, VObj r' _ => bool_decide (r = r')
  | _, _ => false
  end.

(** ** Effects: fresh references, reducer calls, exceptions *)

Inductive error : Type :=
| Error (msg : string)
| ReferenceError (msg : string)
| TypeError (msg : string).

Inductive completion (A : Type) : Type :=
| Return (a : A)
| Throw (e : error).
Arguments Return {A} a.
Arguments Throw {A} e.

(** Which user-supplied function a call went to. *)
Inductive callee : Type :=
| PartReducer (n : string)      (* [part.r] of the part named [n] *)
| KeyReducer (key : string)     (* [finalReducers[key]] *)
| OtherReducerFn.               (* the [otherReducer] function itself *)

Record Call := mkCall {
  call_to : callee;
  call_state : value;
  call_action : Action;
  call_result : value
}.

(** The result of running a computation when [n] objects have been allocated:
    how it completed, the number of objects allocated afterwards, and the
    calls of user reducers it made, oldest first. *)
Record run (A : Type) := Run {
  completion_of : completion A;
  next_ref : nat;
  calls : list Call
}.
Arguments Run {A} _ _ _.
Arguments completion_of {A} _.
Arguments next_ref {A} _.
Arguments calls {A} _.

Definition M (A : Type) : Type := nat -> run A.

#[export] Instance M_ret : MRet M := fun A a h => Run (Return a) h [].

#[export] Instance M_bind : MBind M := fun A B f m h =>
  let r := m h in
  match completion_of r with
  | Return a =>
      let r' := f a (next_ref r) in
      Run (completion_of r') (next_ref r') (calls r ++ calls r')
  | Throw e => Run (Throw e) (next_ref r) (calls r)
  end.

Definition throw {A : Type} (e : error) : M A := fun h => Run (Throw e) h [].

(** An object literal: a new object with the given properties. *)
Definition new_object (ps : props) : M Obj :=
  fun h => Run (Return (mkObj (Fresh h) ps)) (S h) [].

(** A reducer as the module sees one: a pure function of the previous value
    and the action. *)
Definition Reducer := value -> Action -> value.

(** Calling a user-supplied reducer. *)
Definition invoke (who : callee) (f : Reducer) (state : value) (action : Action)
  : M value :=
  fun h => Run (Return (f state action)) h [mkCall who state action (f state action)].

(** ** Reducer maps and parts *)

(** A property of the object given to [combineOtherReducers]: a function, or
    anything else ([typeof] is ['function'] for the former only). *)
Inductive entry : Type :=
| EFunction (f : Reducer)
| EValue (v : value).

Module Part.
(** A stateful part: its name [n], the key [o] of the top-level state it
    lives under, and its reducer [r]. *)
Record t := mk { n : string; o : string; r : Reducer }.
End Part.
Abbreviation Part := Part.t.

(** The [otherReducer] of the configuration, as a JavaScript value: a reducer
    over the composite state, an object (a map of reducers), or any other
    value, [undefined] when the property is left out. *)
Inductive OtherReducer : Type :=
| ORFunction (f : option Obj -> Action -> Obj)
| ORObject (reducers : object entry)
| ORValue (v : value).

Record CreateReducerConfig := mkConfig {
  otherReducer : OtherReducer;
  partMap : gmap string Part;
  parts : list Part
}.

(** A reducer over the composite state: [(state | undefined, action) => state]. *)
Definition RootReducer := option Obj -> Action -> M Obj.

Definition invokeOther (f : option Obj -> Action -> Obj)
  (state : option Obj) (action : Action) : M Obj :=
  fun h =>
    Run (Return (f state action)) h
        [mkCall OtherReducerFn (state_value state) action (obj_value (f state action))].

(** ** What the module takes from its host

    [isPartAction] and [isReducersMap] come from the validation module and the
    printing of numbers from the JavaScript runtime; none of them is part of
    the sources, and no property below depends on how they are implemented. *)
Class Host := {
  (** [String(x)] for a number [x] *)
  NumberToString : spec_float -> string;
  (** [isPartAction(action)]: does the action carry a part-target tag? *)
  isPartAction : Action -> bool;
  (** [isReducersMap(otherReducer)]: is the value a map of reducers? *)
  isReducersMap : OtherReducer -> bool
}.

Definition dquote : string := String "034"%char EmptyString.

(** [String(v)], which is also what a template literal and a computed
    property key do to a value that is not a symbol. *)
Definition ToString `{Host} (v : value) : string :=
  match v with
  | VUndefined => "undefined"
  | VNull => "null"
  | VBool true => "true"
  | VBool false => "false"
  | VNum x => NumberToString x
  | VStr s => s
  | VObj _ _ => "[object Object]"
  end.

(** ** [combineOtherReducers] *)

Section CombineOtherReducers.
Context `{Host}.

(** The [forEach] over [Object.keys(reducers)] that keeps the function-valued
    entries.  (The development-mode [console.warn] is not modelled.) *)
Definition finalReducersOf (reducers : object entry) : object Reducer :=
  fold_left
    (fun finalReducers key =>
       match prop reducers key with
       | Some (EFunction f) => assign finalReducers key f
       | _ => finalReducers
       end)
    (keys reducers) [].

(** The message of the error thrown when a reducer returns [undefined]. *)
Definition undefinedResultMessage (action : Action) (key : string) : string :=
  let actionType := get action "type" in
  "When called with an action of type " +:+
  (if truthy actionType
   then dquote +:+ ToString actionType +:+ dquote
   else "(unknown type)") +:+
  ", the part reducer for key " +:+ dquote +:+ key +:+ dquote +:+
  " returned undefined. " +:+
  "To ignore an action, you must explicitly return the previous state. " +:+
  "If you want this reducer to hold no value, you can return null instead of undefined.".

(** The [for] loop of the returned reducer, from index [i] on:
    [finalReducerKeys] is what is left of the key list. *)
Fixpoint reduceKeys (finalReducers : object Reducer) (state : Obj)
    (action : Action) (finalReducerKeys : list string)
    (nextState : props) (hasChanged : bool) : M (props * bool) :=
  match finalReducerKeys with
  | [] => mret (nextState, hasChanged)
  | key :: rest =>
      let previousStateForKey := get (oprops state) key in
      match prop finalReducers key with
      | None => throw (TypeError "finalReducers[key] is not a function")
      | Some reducer =>
          nextStateForKey ← invoke (KeyReducer key) reducer previousStateForKey action;
          if is_undefined nextStateForKey
          then throw (Error (undefinedResultMessage action key))
          else
            reduceKeys finalReducers state action rest
              (assign nextState key nextStateForKey)
              (hasChanged || negb (is_ previousStateForKey nextStateForKey))
      end
  end.

Definition combineOtherReducers (reducers : object entry) : RootReducer :=
  let finalReducers := finalReducersOf reducers in
  let finalReducerKeys := keys finalReducers in
  fun state action =>
    state ← match state with
            | Some s => mret s
            | None => new_object []        (* the default parameter [{}] *)
            end;
    nextState ← new_object [];
    '(nextProps, hasChanged) ←
      reduceKeys finalReducers state action finalReducerKeys [] false;
    mret (if hasChanged : bool then mkObj (oref nextState) nextProps else state).
End CombineOtherReducers.

(** ** [getInitialState] *)

(** The loop of [getInitialState] over the parts that are left. *)
Fixpoint initialStateLoop (parts : list Part) (initialState : props) : M props :=
  match parts with
  | [] => mret initialState
  | part :: rest =>
      v ← invoke (PartReducer (Part.n part)) (Part.r part) VUndefined [];
      initialStateLoop rest (assign initialState (Part.n part) v)
  end.

Definition getInitialState (parts : list Part) : M Obj :=
  initialState ← new_object [];
  ps ← initialStateLoop parts [];
  mret (mkObj (oref initialState) ps).

(** ** [createReducer] *)

Section CreateReducer.
Context `{Host}.

Definition unregisteredPartMessage (target : value) : string :=
  "Part with ID `" +:+ ToString target +:+
  "` was not provided to the partitioner for inclusion in state. " +:+
  "Please add it to the list of parts provided to `createPartitioner`.".

(** The members of [Object.prototype].  The part map is a plain object, so
    [partMap[key]] for one of these names that the map does not own is the
    inherited member: a function (the prototype itself for [__proto__]), which
    is truthy and has neither an [o] nor an [r] property. *)
Definition objectPrototypeNames : list string :=
  [ "constructor"; "hasOwnProperty"; "isPrototypeOf"; "propertyIsEnumerable";
    "toLocaleString"; "toString"; "valueOf"; "__proto__";
    "__defineGetter__"; "__defineSetter__"; "__lookupGetter__"; "__lookupSetter__" ].

Definition inheritedName (key : string) : bool :=
  existsb (String.eqb key) objectPrototypeNames.

(** What calling [part.r] throws when [part] has no [r] (the wording is the
    engine's). *)
Definition notAFunctionMessage : string := "part.r is not a function".

(** [const part = partMap[action.$$part]] reads through the prototype chain,
    and [if (!part)] only tests the result for truthiness.  For an inherited
    name the guard is passed, [part.o] and [part.r] are [undefined], the read
    [state[undefined]] throws nothing, and the call [part.r(prev, action)]
    throws a [TypeError]. *)
Definition partsReducer (partMap : gmap string Part)
    (state : Obj) (action : Action) : M Obj :=
  let target := get action "$$part" in
  match partMap !! ToString target with
  | None =>
      if inheritedName (ToString target)
      then throw (TypeError notAFunctionMessage)
      else throw (ReferenceError (unregisteredPartMessage target))
  | Some part =>
      let owner := Part.o part in
      let prev := get (oprops state) owner in
      next ← invoke (PartReducer (Part.n part)) (Part.r part) prev action;
      if is_ prev next then mret state
      else
        result ← new_object [];
        mret (mkObj (oref result) (assign (oprops state) owner next))
  end.

(** [!otherReducer] is decided by ToBoolean; functions and objects are truthy. *)
Definition otherReducerTruthy (otherReducer : OtherReducer) : bool :=
  match otherReducer with
  | ORFunction _ | ORObject _ => true
  | ORValue v => truthy v
  end.

Definition otherReducerTypeof (otherReducer : OtherReducer) : string :=
  match otherReducer with
  | ORFunction _ => "function"
  | ORObject _ => "object"
  | ORValue v => typeof v
  end.

(** The properties of a value handed to [combineOtherReducers], as
    [Object.keys] and property reads show them.  A function or a number has
    none; those of a string are one-character strings, which the combinator
    drops just as it drops every property that is not a function, and are
    left out. *)
Definition reducersOf (otherReducer : OtherReducer) : object entry :=
  match otherReducer with
  | ORObject reducers => reducers
  | ORValue (VObj _ ps) => map (fun kv => (fst kv, EValue (snd kv))) ps
  | _ => []
  end.

Definition invalidOtherReducerMessage (otherReducer : OtherReducer) : string :=
  "`otherReducer` provided was expected to be a function or a map of reducers; received "
  +:+ otherReducerTypeof otherReducer.

(** [additionalReducer], when it is a function; [None] when
    [typeof additionalReducer !== 'function']. *)
Definition additionalReducerOf (otherReducer : OtherReducer) : option RootReducer :=
  if isReducersMap otherReducer
  then Some (combineOtherReducers (reducersOf otherReducer))
  else match otherReducer with
       | ORFunction f => Some (invokeOther f)
       | _ => None
       end.

(** The [function reducer] returned when no other reducer is given. *)
Definition reducerOfParts (config : CreateReducerConfig) : RootReducer :=
  fun state action =>
    state ← match state with
            | Some s => mret s
            | None => getInitialState (parts config)   (* the default parameter *)
            end;
    if isPartAction action then partsReducer (partMap config) state action
    else mret state.

(** The [function reducer] returned when there is an other reducer. *)
Definition reducerWithOther (config : CreateReducerConfig)
    (additionalReducer : RootReducer) : RootReducer :=
  fun state action =>
    match state with
    | None =>
        result ← new_object [];
        initial ← getInitialState (parts config);
        other ← additionalReducer None action;
        mret (mkObj (oref result) (spread (oprops initial) (oprops other)))
    | Some state =>
        if isPartAction action then partsReducer (partMap config) state action
        else
          nextOtherState ← additionalReducer (Some state) action;
          if is_ (obj_value state) (obj_value nextOtherState) then mret state
          else
            result ← new_object [];
            mret (mkObj (oref result)
                        (spread (oprops state) (oprops nextOtherState)))
    end.

Definition createReducer (config : CreateReducerConfig) : completion RootReducer :=
  if negb (otherReducerTruthy (otherReducer config)) then
    Return (reducerOfParts config)
  else
    match additionalReducerOf (otherReducer config) with
    | None =>
        Throw (ReferenceError (invalidOtherReducerMessage (otherReducer config)))
    | Some additionalReducer =>
        Return (reducerWithOther config additionalReducer)
    end.
End CreateReducer.

(** Replaying a sequence of actions through a reducer, as a store does. *)
Fixpoint replay (reducer : RootReducer) (state : option Obj) (actions : list Action)
  : M (option Obj) :=
  match actions with
  | [] => mret state
  | action :: rest =>
      next ← reducer state action;
      replay reducer (Some next) rest
  end.

(** ** The flags of the kinds of part ([shared/flags.ts])

    Each kind of part has one bit; the masks group the kinds.  JavaScript's
    [|] works on 32-bit integers, which these values all are. *)
Module Flags.
Definition PRIMITIVE_PART : Z := 0x1%Z.
Definition COMPOSED_PART : Z := 0x2%Z.
Definition SELECT_PART : Z := 0x4%Z.
Definition UPDATE_PART : Z := 0x8%Z.
Definition PROXY_PART : Z := 0x10%Z.

Definition STATEFUL_PART : Z := Z.lor PRIMITIVE_PART COMPOSED_PART.
Definition SELECTABLE_PART : Z := Z.lor (Z.lor STATEFUL_PART SELECT_PART) PROXY_PART.
Definition UPDATEABLE_PART : Z := Z.lor (Z.lor STATEFUL_PART PROXY_PART) UPDATE_PART.

Definition PART : Z :=
  Z.lor (Z.lor (Z.lor (Z.lor PRIMITIVE_PART COMPOSED_PART) SELECT_PART) UPDATE_PART)
        PROXY_PART.
End Flags.

(** ** Vocabulary of the properties *)

(** The keys that an assignment [obj[key] = v] appends to the own keys of a
    plain object that lacks them, as [assign] does.  JavaScript lists the
    integer-like keys first and in ascending order, and each of them starts
    with a digit; [__proto__] is an accessor of [Object.prototype], and an
    assignment to it adds no property. *)
Definition startsWithDigit (key : string) : bool :=
  match key with
  | EmptyString => false
  | String c _ => Nat.leb 48 (nat_of_ascii c) && Nat.leb (nat_of_ascii c) 57
  end.

Definition appendedKey (key : string) : bool :=
  negb (startsWithDigit key) && negb (String.eqb key "__proto__").



(** [whole.includes(part)] *)
Fixpoint includes (part whole : string) : bool :=
  String.prefix part whole ||
  match whole with
  | EmptyString => false
  | String _ rest => includes part rest
  end.

(** The properties a reducer reads when its state argument is [undefined] and
    the default parameter [{}] steps in. *)
Definition stateProps (state : option Obj) : props :=
  match state with Some s => oprops s | None => [] end.

(** Two completions agree when both throw the same error or both return
    objects with the same properties (the same keys in the same order, each
    holding the very same value). *)
Definition agree (c1 c2 : completion Obj) : Prop :=
  match c1, c2 with
  | Return o1, Return o2 => oprops o1 = oprops o2
  | Throw e1, Throw e2 => e1 = e2
  | _, _ => False
  end.

(** A pure reducer over the composite state cannot see at which address the
    module allocated the state object: on two such objects with the same
    properties it returns objects with the same properties, and it returns its
    argument itself on the one exactly when it does on the other. *)
Definition address_blind (f : option Obj -> Action -> Obj) : Prop :=
  forall (n1 n2 : nat) (ps : props) (action : Action),
    let s1 := mkObj (Fresh n1) ps in
    let s2 := mkObj (Fresh n2) ps in
    oprops (f (Some s1) action) = oprops (f (Some s2) action) /\
    is_ (obj_value s1) (obj_value (f (Some s1) action)) =
    is_ (obj_value s2) (obj_value (f (Some s2) action)).

(** The object was not allocated by this module at or after count [h]. *)
Definition allocated_before (h : nat) (o : Obj) : Prop :=
  match oref o with Fresh n => n < h | Given _ => True end.

(** The states that two runs of the same actions have reached, the one having
    started when [l1] objects were allocated and standing at [h1], the other
    at [l2] and [h2].  Both are [undefined], or both are objects with the same
    properties: the very same object, or two objects that the runs allocated,
    each its own. *)
Definition twin (l1 l2 h1 h2 : nat) (s1 s2 : option Obj) : Prop :=
  match s1, s2 with
  | None, None => True
  | Some o1, Some o2 =>
      oprops o1 = oprops o2 /\
      allocated_before h1 o1 /\ allocated_before h2 o2 /\
      (o1 = o2 \/
       exists n1 n2, oref o1 = Fresh n1 /\ oref o2 = Fresh n2 /\ l1 <= n1 /\ l2 <= n2)
  | _, _ => False
  end.

(** Two runs end alike: both throw the same error, or both return and what
    they return is related, given where each run stands. *)
Definition alike {A : Type} (R : nat -> nat -> A -> A -> Prop) (r1 r2 : run A) : Prop :=
  match completion_of r1, completion_of r2 with
  | Return a1, Return a2 => R (next_ref r1) (next_ref r2) a1 a2
  | Throw e1, Throw e2 => e1 = e2
  | _, _ => False
  end.

(** Twin objects, for the runs of a reducer. *)
Definition twin_objects (l1 l2 h1 h2 : nat) (o1 o2 : Obj) : Prop :=
  twin l1 l2 h1 h2 (Some o1) (Some o2).

(** One step of two runs that stood at [h1] and [h2]: they now stand at [h1']
    and [h2'], no earlier, and have reached twin objects. *)
Definition twin_step (l1 l2 h1 h2 h1' h2' : nat) (o1 o2 : Obj) : Prop :=
  h1 <= h1' /\ h2 <= h2' /\ twin_objects l1 l2 h1' h2' o1 o2.

(** What the reducer kept under [key] returns for the value the state holds
    under [key]; the call that yields it; whether [is] tells the two apart. *)
Definition keyResult (finalReducers : object Reducer) (ps : props)
    (action : Action) (key : string) : value :=
  match prop finalReducers key with
  | Some f => f (get ps key) action
  | None => VUndefined
  end.

Definition keyCall (finalReducers : object Reducer) (ps : props)
    (action : Action) (key : string) : Call :=
  mkCall (KeyReducer key) (get ps key) action (keyResult finalReducers ps action key).

Definition keyChanged (finalReducers : object Reducer) (ps : props)
    (action : Action) (key : string) : bool :=
  negb (is_ (get ps key) (keyResult finalReducers ps action key)).

(** The call [getInitialState] makes for a part, and the object it builds. *)
Definition initialCall (part : Part) : Call :=
  mkCall (PartReducer (Part.n part)) VUndefined [] (Part.r part VUndefined []).

Definition initialProps (parts : list Part) : props :=
  fold_left (fun acc part => assign acc (Part.n part) (Part.r part VUndefined []))
            parts [].

(** The call of a part's reducer that a part action leads to. *)
Definition partCall (part : Part) (state : Obj) (action : Action) : Call :=
  let prev := get (oprops state) (Part.o part) in
  mkCall (PartReducer (Part.n part)) prev action (Part.r part prev action).

(** ** A host and sample inputs, used to evaluate the examples *)

(** Prints the integers among the numbers in decimal, which is what [String]
    does below 10^21; the examples print no other number. *)
Definition integerToString (x : spec_float) : string :=
  match x with
  | S754_nan => "NaN"
  | S754_zero _ => "0"
  | S754_infinity s => if s then "-Infinity" else "Infinity"
  | S754_finite s m e =>
      (if s then "-" else EmptyString) +:+
      NilZero.string_of_int (Z.to_int (Z.shiftl (Zpos m) e))
  end.

(** Modelled from the spec: [isPartAction] of the validation module, which is
    not part of the sources.  Section 3: a part action is an action tagged
    with the field [$$part]; an action lacking the tag is not one. *)
Definition hasPartTag (action : Action) : bool := has action "$$part".

(** Modelled from the spec: [isReducersMap] of the validation module, which is
    not part of the sources.  Section 4.2: the other reducer is a single
    reducer function or a mapping of reducers, and a mapping is passed
    through the combinator; a mapping is an object. *)
Definition isObject (otherReducer : OtherReducer) : bool :=
  match otherReducer with
  | ORObject _ | ORValue (VObj _ _) => true
  | _ => false
  end.

Definition exampleHost : Host :=
  {| NumberToString := integerToString;
     isPartAction := hasPartTag;
     isReducersMap := isObject |}.

(** The number 1 as a binary64 float, and addition on binary64. *)
Definition one : spec_float := S754_finite false 4503599627370496 (-52).
Definition plus (x y : spec_float) : spec_float := SFadd 53 1024 x y.

(** [(s = 0, a) => a.$$part === "counter" ? s + 1 : s] *)
Definition counterReducer : Reducer := fun s a =>
  let s := if is_undefined s then VNum (S754_zero false) else s in
  match get a "$$part", s with
  | VStr "counter", VNum x => VNum (plus x one)
  | _, _ => s
  end.

Definition counterPart : Part := Part.mk "counter" "counter" counterReducer.


(** Two parts of one name. *)
Definition draftPart : Part := Part.mk "title" "title" (fun _ _ => VStr "draft").
Definition finalPart : Part := Part.mk "title" "title" (fun _ _ => VStr "final").

(** [(s) => s]: keeps whatever it is given, also [undefined]. *)
Definition keep : Reducer := fun s _ => s.

(** [() => undefined] *)
Definition lose : Reducer := fun _ _ => VUndefined.

(** [(s = "closed", a) => a.type === "open" ? "opened" : s] *)
Definition uiReducer : Reducer := fun s a =>
  let s := if is_undefined s then VStr "closed" else s in
  match get a "type" with
  | VStr "open" => VStr "opened"
  | _ => s
  end.

(** [(s, a) => ({ seen: a.type })], the object it returns at a fixed address. *)
Definition lastType : option Obj -> Action -> Obj := fun _ a =>
  mkObj (Given 0) [("seen", get a "type")].

(** Configurations and actions built from the samples. *)
Definition counterConfig : CreateReducerConfig :=
  mkConfig (ORValue VUndefined) {[ "counter" := counterPart ]} [counterPart].

Definition uiReducers : object entry := [("ui", EFunction uiReducer)].

Definition uiConfig : CreateReducerConfig :=
  mkConfig (ORObject uiReducers) {[ "counter" := counterPart ]} [counterPart].

Definition keepConfig : CreateReducerConfig :=
  mkConfig (ORObject [("a", EFunction keep)]) ∅ [].


Definition lastTypeConfig : CreateReducerConfig :=
  mkConfig (ORFunction lastType) {[ "counter" := counterPart ]} [counterPart].

Definition zero : spec_float := S754_zero false.

Definition noop : Action := [("type", VStr "noop")].
Definition open : Action := [("type", VStr "open")].
Definition increment : Action := [("$$part", VStr "counter")].

(** [{ counter: 0 }], an object the caller made. *)
Definition counterAtZero : Obj := mkObj (Given 1) [("counter", VNum zero)].

(** More samples: a map with an entry that is not a function, a map whose
    second reducer gives no initial value, a part [ui] that collides with the
    key of [uiReducers], and a function other reducer that sets one key. *)
Definition mixedReducers : object entry :=
  [("version", EValue (VNum one)); ("ui", EFunction uiReducer)].

Definition noReducers : object entry := [("version", EValue (VNum one))].

Definition brokenReducers : object entry :=
  [("ui", EFunction uiReducer); ("a", EFunction keep)].

Definition uiPart : Part :=
  Part.mk "ui" "ui" (fun s _ => if is_undefined s then VStr "part" else s).

Definition collidingConfig : CreateReducerConfig :=
  mkConfig (ORObject uiReducers) {[ "ui" := uiPart ]} [uiPart; counterPart].

Definition brokenConfig : CreateReducerConfig :=
  mkConfig (ORObject brokenReducers) ∅ [].

(** [(s, a) => ({ ui: "other" })], the object it returns at a fixed address. *)
Definition setUi : option Obj -> Action -> Obj := fun _ _ =>
  mkObj (Given 0) [("ui", VStr "other")].

Definition setUiConfig : CreateReducerConfig :=
  mkConfig (ORFunction setUi) {[ "ui" := uiPart ]} [uiPart; counterPart].

(** * Properties *)

(** ** Objects *)

Section ObjectFacts.
Context {A : Type}.
Implicit Types (obj : object A) (key : string) (v : A).

Lemma prop_assign_eq obj key v : prop (assign obj key v) key = Some v.
Proof.
  induction obj as [|[k w] rest IH]; simpl.
  - by rewrite String.eqb_refl.
  - destruct (String.eqb_spec k key) as [->|Hne]; simpl.
    + by rewrite String.eqb_refl.
    + destruct (String.eqb_spec k key); [done|apply IH].
Qed.

Lemma prop_assign_ne obj key key' v :
  key <> key' -> prop (assign obj key v) key' = prop obj key'.
Proof.
  intros Hne. induction obj as [|[k w] rest IH]; simpl.
  - by destruct (String.eqb_spec key key').
  - destruct (String.eqb_spec k key) as [->|Hk]; simpl.
    + by destruct (String.eqb_spec key key').
    + by rewrite IH.
Qed.


Lemma has_keys obj key : has obj key = true <-> List.In key (keys obj).
Proof.
  unfold has, keys. induction obj as [|[k w] rest IH]; simpl.
  - split; [done|]. by intros [].
  - destruct (String.eqb_spec k key) as [->|Hne].
    + split; auto.
    + rewrite IH. split; [auto|]. intros [?|?]; [congruence|done].
Qed.

Lemma has_false_keys obj key : has obj key = false <-> ~ List.In key (keys obj).
Proof. rewrite <- has_keys. by destruct (has obj key). Qed.

Lemma keys_assign obj key v :
  keys (assign obj key v) = if has obj key then keys obj else (keys obj ++ [key])%list.
Proof.
  unfold has, keys. induction obj as [|[k w] rest IH]; simpl; [done|].
  destruct (String.eqb_spec k key) as [->|Hne]; simpl; [done|].
  rewrite IH. by destruct (prop rest key).
Qed.


End ObjectFacts.

Lemma get_assign_eq (obj : props) key v : get (assign obj key v) key = v.
Proof. unfold get. by rewrite prop_assign_eq. Qed.

Lemma get_assign_ne (obj : props) key key' v :
  key <> key' -> get (assign obj key v) key' = get obj key'.
Proof. intros. unfold get. by rewrite prop_assign_ne. Qed.

(** ** Strings *)

Lemma append_cons (ch : ascii) (a b : string) :
  String ch a +:+ b = String ch (a +:+ b).
Proof. reflexivity. Qed.

Lemma append_assoc (a b c : string) : (a +:+ b) +:+ c = a +:+ (b +:+ c).
Proof.
  induction a as [|ch a IH]; [done|].
  rewrite !append_cons. by f_equal.
Qed.

Lemma prefix_append (part rest : string) : String.prefix part (part +:+ rest) = true.
Proof.
  induction part as [|ch part IH].
  - by destruct rest.
  - rewrite append_cons. simpl. destruct (Ascii.ascii_dec ch ch); [apply IH|done].
Qed.

Lemma includes_prefix (part whole : string) :
  String.prefix part whole = true -> includes part whole = true.
Proof. intros Hp. destruct whole; cbn [includes]; by rewrite Hp. Qed.

Lemma includes_append_r (part before whole : string) :
  includes part whole = true -> includes part (before +:+ whole) = true.
Proof.
  intros Hin. induction before as [|ch before IH]; [done|].
  rewrite append_cons. cbn [includes]. rewrite IH. apply orb_true_r.
Qed.

Lemma includes_head (part rest : string) : includes part (part +:+ rest) = true.
Proof. apply includes_prefix, prefix_append. Qed.

Lemma includes_self (part : string) : includes part part = true.
Proof.
  apply includes_prefix. induction part as [|ch part IH]; [done|].
  simpl. by destruct (Ascii.ascii_dec ch ch).
Qed.

(** ** Running computations *)

Lemma is_undefined_true v : is_undefined v = true <-> v = VUndefined.
Proof. by destruct v. Qed.

Lemma is_undefined_false v : is_undefined v = false <-> v <> VUndefined.
Proof. by destruct v. Qed.

Lemma is_same_object (o : Obj) : is_ (obj_value o) (obj_value o) = true.
Proof. simpl. by apply bool_decide_eq_true. Qed.

Ltac run_step :=
  unfold mbind, M_bind, mret, M_ret, throw, new_object, invoke, invokeOther; simpl.

(** ** The effective reducer set of [combineOtherReducers] *)

Section FinalReducers.
Variable reducers : object entry.

Let keep_function (finalReducers : object Reducer) (key : string) :=
  match prop reducers key with
  | Some (EFunction f) => assign finalReducers key f
  | _ => finalReducers
  end.

Lemma prop_keep_functions (ks : list string) (acc : object Reducer) (key : string) :
  prop (fold_left keep_function ks acc) key =
  match (if bool_decide (key ∈ ks) then prop reducers key else None) with
  | Some (EFunction f) => Some f
  | _ => prop acc key
  end.
Proof.
  revert acc. induction ks as [|k ks IH]; intros acc; simpl.
  - done.
  - rewrite IH. unfold keep_function.
    destruct (decide (key = k)) as [->|Hne].
    + rewrite (bool_decide_eq_true_2 (k ∈ k :: ks)) by apply list_elem_of_here.
      destruct (prop reducers k) as [[f|v]|] eqn:E.
      * rewrite prop_assign_eq. by case_bool_decide.
      * by case_bool_decide.
      * by case_bool_decide.
    + assert (bool_decide (key ∈ k :: ks) = bool_decide (key ∈ ks)) as ->.
      { apply bool_decide_ext. rewrite elem_of_cons. tauto. }
      destruct (prop reducers k) as [[f|v]|] eqn:E; try done.
      by rewrite prop_assign_ne.
Qed.


(** A key is in the effective set exactly when the map holds a function
    under it, and then it is that function. *)
Lemma prop_finalReducersOf (key : string) :
  prop (finalReducersOf reducers) key =
  match prop reducers key with
  | Some (EFunction f) => Some f
  | _ => None
  end.
Proof.
  unfold finalReducersOf. fold keep_function. rewrite prop_keep_functions. simpl.
  case_bool_decide as Hin; [done|].
  assert (has reducers key = false) as Hhas.
  { apply has_false_keys. by rewrite <- list_elem_of_In. }
  unfold has in Hhas. by destruct (prop reducers key).
Qed.


Lemma finalReducerKeys_function (key : string) :
  In key (keys (finalReducersOf reducers)) ->
  exists f, prop reducers key = Some (EFunction f).
Proof.
  intros Hin%has_keys. unfold has in Hin. rewrite prop_finalReducersOf in Hin.
  destruct (prop reducers key) as [[f|v]|]; try done. by exists f.
Qed.
End FinalReducers.

(** ** The loop of the combined reducer *)

Section ReduceKeys.
Context `{Host}.
Variables (finalReducers : object Reducer) (state : Obj) (action : Action).

Local Abbreviation result := (keyResult finalReducers (oprops state) action).
Local Abbreviation call := (keyCall finalReducers (oprops state) action).
Local Abbreviation changed := (keyChanged finalReducers (oprops state) action).

Lemma keyResult_kept (key : string) :
  has finalReducers key = true ->
  exists f, prop finalReducers key = Some f /\
            result key = f (get (oprops state) key) action.
Proof.
  unfold has, keyResult. destruct (prop finalReducers key) as [f|]; [|done].
  by exists f.
Qed.

(** One turn of the loop, for a key whose reducer is in [finalReducers]. *)
Lemma reduceKeys_cons (key : string) (rest : list string)
    (nextState : props) (hasChanged : bool) h :
  has finalReducers key = true ->
  reduceKeys finalReducers state action (key :: rest) nextState hasChanged h =
  if is_undefined (result key)
  then Run (Throw (Error (undefinedResultMessage action key))) h [call key]
  else
    let r := reduceKeys finalReducers state action rest
               (assign nextState key (result key))
               (hasChanged || changed key) h in
    Run (completion_of r) (next_ref r) (call key :: calls r).
Proof.
  intros (f & Ef & Hr)%keyResult_kept.
  cbn [reduceKeys]. rewrite Ef. unfold keyCall, keyChanged. rewrite Hr.
  unfold mbind, M_bind, invoke. cbn [completion_of next_ref calls].
  by destruct (is_undefined (f (get (oprops state) key) action)).
Qed.

(** When every reducer returns a defined value the loop runs to its end. *)
Lemma reduceKeys_returns (ks : list string) (nextState : props) (hasChanged : bool) h :
  (forall k, In k ks -> has finalReducers k = true /\ result k <> VUndefined) ->
  reduceKeys finalReducers state action ks nextState hasChanged h =
  Run (Return (fold_left (fun acc k => assign acc k (result k)) ks nextState,
               hasChanged || existsb changed ks))
      h (map call ks).
Proof.
  revert nextState hasChanged.
  induction ks as [|k ks IH]; intros nextState hasChanged Hdef.
  - simpl. by rewrite orb_false_r.
  - destruct (Hdef k) as [Hhas Hk]; [by left|].
    rewrite reduceKeys_cons by done.
    apply is_undefined_false in Hk. rewrite Hk.
    rewrite IH by (intros; apply Hdef; by right).
    simpl. by rewrite orb_assoc.
Qed.

(** The loop stops at the first key whose reducer returns [undefined]. *)
Lemma reduceKeys_throws (before after : list string) (key : string)
    (nextState : props) (hasChanged : bool) h :
  (forall k, In k before -> has finalReducers k = true /\ result k <> VUndefined) ->
  has finalReducers key = true ->
  result key = VUndefined ->
  reduceKeys finalReducers state action (before ++ key :: after) nextState hasChanged h =
  Run (Throw (Error (undefinedResultMessage action key))) h (map call (before ++ [key])).
Proof.
  revert nextState hasChanged.
  induction before as [|k ks IH]; intros nextState hasChanged Hdef Hhas Hkey.
  - cbn [app]. rewrite reduceKeys_cons by done. by rewrite Hkey.
  - destruct (Hdef k) as [Hhask Hk]; [by left|].
    cbn [app]. rewrite reduceKeys_cons by done.
    apply is_undefined_false in Hk. rewrite Hk.
    rewrite IH; [done| |done..].
    intros; apply Hdef; by right.
Qed.


End ReduceKeys.

(** ** [combineOtherReducers] *)

Section CombinedReducer.
Context `{Host}.
Variable reducers : object entry.

Local Abbreviation finalReducers := (finalReducersOf reducers).

(** The combined reducer, with its loop kept as one step.  [state0] is the
    state after the default parameter, [h0] the count of objects after it. *)
Lemma combineOtherReducers_unfold (state : option Obj) (action : Action) h :
  let state0 := match state with Some s => s | None => mkObj (Fresh h) [] end in
  let h0 := match state with Some _ => h | None => S h end in
  let r := reduceKeys finalReducers state0 action (keys finalReducers) [] false (S h0) in
  combineOtherReducers reducers state action h =
  match completion_of r with
  | Return (nextProps, hasChanged) =>
      Run (Return (if hasChanged : bool then mkObj (Fresh h0) nextProps else state0))
          (next_ref r) (calls r)
  | Throw e => Run (Throw e) (next_ref r) (calls r)
  end.
Proof.
  destruct state as [s|]; unfold combineOtherReducers; run_step;
    match goal with
    | |- context [reduceKeys ?fr ?st ?a ?ks ?ns ?hc ?n] =>
        destruct (reduceKeys fr st a ks ns hc n) as [[[nextProps hasChanged]|e] h' cs]
    end; simpl; by rewrite ?app_nil_r.
Qed.

Lemma oprops_default_state (state : option Obj) h :
  oprops (match state with Some s => s | None => mkObj (Fresh h) [] end) =
  stateProps state.
Proof. by destruct state. Qed.

Lemma kept_has (key : string) (f : Reducer) :
  prop reducers key = Some (EFunction f) -> has finalReducers key = true.
Proof. intros E. unfold has. by rewrite prop_finalReducersOf, E. Qed.

Lemma kept_keyResult (ps : props) (action : Action) (key : string) (f : Reducer) :
  prop reducers key = Some (EFunction f) ->
  keyResult finalReducers ps action key = f (get ps key) action.
Proof. intros E. unfold keyResult. by rewrite prop_finalReducersOf, E. Qed.

(** The combined reducer throws at the first key, in the order of the
    effective key list, whose reducer returns [undefined]; the message is the
    one built for that key. *)
Lemma combineOtherReducers_throws (state : option Obj) (action : Action) h
    (before after : list string) (key : string) (reducer : Reducer) :
  keys finalReducers = (before ++ key :: after)%list ->
  prop reducers key = Some (EFunction reducer) ->
  reducer (get (stateProps state) key) action = VUndefined ->
  (forall k g, In k before -> prop reducers k = Some (EFunction g) ->
               g (get (stateProps state) k) action <> VUndefined) ->
  completion_of (combineOtherReducers reducers state action h) =
  Throw (Error (undefinedResultMessage action key)).
Proof.
  intros Hkeys Hkey Hundef Hbefore.
  rewrite combineOtherReducers_unfold. cbv zeta.
  rewrite Hkeys, reduceKeys_throws; [done| | |].
  - intros k Hin. rewrite oprops_default_state.
    destruct (finalReducerKeys_function reducers k) as [g Hg].
    { rewrite Hkeys. apply in_or_app. by left. }
    split; [by eapply kept_has|].
    erewrite kept_keyResult by done. by eapply Hbefore.
  - by eapply kept_has.
  - rewrite oprops_default_state. by erewrite kept_keyResult.
Qed.

(** When no reducer returns [undefined], the combined reducer returns: a new
    object holding every reducer's result if [is] tells some result from the
    previous value, the state object it was given otherwise. *)
Lemma combineOtherReducers_returns (s : Obj) (action : Action) h :
  (forall k, In k (keys finalReducers) ->
             keyResult finalReducers (oprops s) action k <> VUndefined) ->
  combineOtherReducers reducers (Some s) action h =
  Run (Return
         (if existsb (keyChanged finalReducers (oprops s) action) (keys finalReducers)
          then mkObj (Fresh h)
                 (fold_left
                    (fun acc k => assign acc k (keyResult finalReducers (oprops s) action k))
                    (keys finalReducers) [])
          else s))
      (S h) (map (keyCall finalReducers (oprops s) action) (keys finalReducers)).
Proof.
  intros Hdef. rewrite combineOtherReducers_unfold. cbv zeta.
  rewrite reduceKeys_returns; [done|].
  intros k Hin. split; [by apply has_keys|by apply Hdef].
Qed.
End CombinedReducer.

(** ** [getInitialState] *)

Lemma initialStateLoop_run (parts : list Part) (acc : props) h :
  initialStateLoop parts acc h =
  Run (Return (fold_left
                 (fun acc part => assign acc (Part.n part) (Part.r part VUndefined []))
                 parts acc))
      h (map initialCall parts).
Proof.
  revert acc. induction parts as [|part rest IH]; intros acc; [done|].
  cbn [initialStateLoop]. unfold mbind, M_bind, invoke.
  cbn [completion_of next_ref calls]. by rewrite IH.
Qed.

Lemma getInitialState_run (parts : list Part) h :
  getInitialState parts h =
  Run (Return (mkObj (Fresh h) (initialProps parts))) (S h) (map initialCall parts).
Proof.
  unfold getInitialState, mbind, M_bind, new_object.
  cbn [completion_of next_ref calls]. rewrite initialStateLoop_run.
  simpl. by rewrite app_nil_r.
Qed.

Lemma find_append {A : Type} (f : A -> bool) (l1 l2 : list A) :
  find f (l1 ++ l2) = match find f l1 with Some x => Some x | None => find f l2 end.
Proof. induction l1 as [|x l1 IH]; simpl; [done|]. by destruct (f x). Qed.

Lemma prop_initial_fold (parts : list Part) (acc : props) (key : string) :
  prop (fold_left (fun acc part => assign acc (Part.n part) (Part.r part VUndefined []))
                  parts acc) key =
  match find (fun part => String.eqb (Part.n part) key) (rev parts) with
  | Some part => Some (Part.r part VUndefined [])
  | None => prop acc key
  end.
Proof.
  revert acc. induction parts as [|part rest IH]; intros acc; [done|].
  cbn [fold_left rev]. rewrite IH, find_append.
  destruct (find _ (rev rest)) as [q|]; [done|]. cbn [find].
  destruct (String.eqb_spec (Part.n part) key) as [<-|Hne].
  - by rewrite prop_assign_eq.
  - by rewrite prop_assign_ne.
Qed.

(** The last part of a given name decides the value under that name. *)
Lemma prop_initialProps_last (before after : list Part) (part : Part) :
  (forall q, In q after -> Part.n q <> Part.n part) ->
  prop (initialProps (before ++ part :: after)) (Part.n part) =
  Some (Part.r part VUndefined []).
Proof.
  intros Hlater. unfold initialProps. rewrite prop_initial_fold.
  rewrite rev_app_distr. cbn [rev]. rewrite <- app_assoc, find_append.
  destruct (find _ (rev after)) as [q|] eqn:Eq.
  - apply find_some in Eq as [Hin Heq]. apply in_rev in Hin.
    apply String.eqb_eq in Heq. by destruct (Hlater q Hin).
  - cbn [app find]. by rewrite String.eqb_refl.
Qed.


(** ** [createReducer]: the reducers it returns, one step at a time *)

Section RootReducerSteps.
Context `{Host}.
Variable config : CreateReducerConfig.

Lemma partsReducer_unregistered (state : Obj) (action : Action) h :
  partMap config !! ToString (get action "$$part") = None ->
  inheritedName (ToString (get action "$$part")) = false ->
  partsReducer (partMap config) state action h =
  Run (Throw (ReferenceError (unregisteredPartMessage (get action "$$part")))) h [].
Proof. intros E E'. unfold partsReducer. by rewrite E, E'. Qed.

Lemma partsReducer_inherited (state : Obj) (action : Action) h :
  partMap config !! ToString (get action "$$part") = None ->
  inheritedName (ToString (get action "$$part")) = true ->
  partsReducer (partMap config) state action h =
  Run (Throw (TypeError notAFunctionMessage)) h [].
Proof. intros E E'. unfold partsReducer. by rewrite E, E'. Qed.

(** A target that the part map does not own: the reducer throws, calls no
    reducer and allocates nothing. *)
Lemma partsReducer_not_owned (action : Action) :
  partMap config !! ToString (get action "$$part") = None ->
  exists e, forall state h,
    partsReducer (partMap config) state action h = Run (Throw e) h [].
Proof.
  intros E. destruct (inheritedName (ToString (get action "$$part"))) eqn:E'.
  - eexists. intros. by apply partsReducer_inherited.
  - eexists. intros. by apply partsReducer_unregistered.
Qed.

Lemma partsReducer_registered (state : Obj) (action : Action) (part : Part) h :
  partMap config !! ToString (get action "$$part") = Some part ->
  partsReducer (partMap config) state action h =
  let prev := get (oprops state) (Part.o part) in
  let next := Part.r part prev action in
  if is_ prev next
  then Run (Return state) h [partCall part state action]
  else Run (Return (mkObj (Fresh h) (assign (oprops state) (Part.o part) next)))
           (S h) [partCall part state action].
Proof.
  intros E. unfold partsReducer. rewrite E. run_step.
  by destruct (is_ _ _).
Qed.

Lemma createReducer_cases (reducer : RootReducer) :
  createReducer config = Return reducer ->
  (otherReducerTruthy (otherReducer config) = false /\
   reducer = reducerOfParts config) \/
  (otherReducerTruthy (otherReducer config) = true /\
   exists additionalReducer,
     additionalReducerOf (otherReducer config) = Some additionalReducer /\
     reducer = reducerWithOther config additionalReducer).
Proof.
  unfold createReducer.
  destruct (otherReducerTruthy (otherReducer config)); simpl.
  - destruct (additionalReducerOf (otherReducer config)) as [ad|]; [|done].
    intros [= <-]. right. split; [done|]. by exists ad.
  - intros [= <-]. by left.
Qed.

(** Either reducer hands a part action on a defined state to [partsReducer]. *)
Lemma reducer_part_action (reducer : RootReducer) (state : Obj) (action : Action) h :
  createReducer config = Return reducer ->
  isPartAction action = true ->
  reducer (Some state) action h = partsReducer (partMap config) state action h.
Proof.
  intros [[_ ->]|[_ (ad & _ & ->)]]%createReducer_cases Hpart.
  - unfold reducerOfParts. rewrite Hpart. run_step.
    by destruct (partsReducer _ _ _ _).
  - unfold reducerWithOther. by rewrite Hpart.
Qed.

Lemma reducerOfParts_plain_action (state : Obj) (action : Action) h :
  isPartAction action = false ->
  reducerOfParts config (Some state) action h = Run (Return state) h [].
Proof. intros Hplain. unfold reducerOfParts. by rewrite Hplain. Qed.

Lemma reducerOfParts_init (action : Action) h :
  reducerOfParts config None action h =
  let initial := mkObj (Fresh h) (initialProps (parts config)) in
  if isPartAction action
  then
    let r := partsReducer (partMap config) initial action (S h) in
    Run (completion_of r) (next_ref r) (map initialCall (parts config) ++ calls r)
  else Run (Return initial) (S h) (map initialCall (parts config)).
Proof.
  unfold reducerOfParts, mbind, M_bind. rewrite getInitialState_run.
  cbn [completion_of next_ref calls].
  destruct (isPartAction action).
  - by destruct (partsReducer _ _ _ _) as [[o|e] h' cs].
  - unfold mret, M_ret. simpl. by rewrite app_nil_r.
Qed.

Lemma reducerWithOther_plain_action (additionalReducer : RootReducer)
    (state : Obj) (action : Action) h :
  isPartAction action = false ->
  reducerWithOther config additionalReducer (Some state) action h =
  let r := additionalReducer (Some state) action h in
  match completion_of r with
  | Return nextOtherState =>
      if is_ (obj_value state) (obj_value nextOtherState)
      then Run (Return state) (next_ref r) (calls r)
      else Run (Return (mkObj (Fresh (next_ref r))
                              (spread (oprops state) (oprops nextOtherState))))
               (S (next_ref r)) (calls r)
  | Throw e => Run (Throw e) (next_ref r) (calls r)
  end.
Proof.
  intros Hplain. unfold reducerWithOther. rewrite Hplain.
  unfold mbind, M_bind. cbv zeta.
  destruct (additionalReducer (Some state) action h) as [[next|e] h' cs];
    cbn [completion_of next_ref calls]; [|done].
  destruct (is_ _ _); run_step; by rewrite app_nil_r.
Qed.

Lemma reducerWithOther_plain_calls (additionalReducer : RootReducer)
    (state : Obj) (action : Action) h :
  isPartAction action = false ->
  calls (reducerWithOther config additionalReducer (Some state) action h) =
  calls (additionalReducer (Some state) action h).
Proof.
  intros Hplain. rewrite reducerWithOther_plain_action by done. cbv zeta.
  destruct (completion_of _); [destruct (is_ _ _)|]; done.
Qed.

Lemma reducerWithOther_init (additionalReducer : RootReducer) (action : Action) h :
  reducerWithOther config additionalReducer None action h =
  let r := additionalReducer None action (S (S h)) in
  match completion_of r with
  | Return other =>
      Run (Return (mkObj (Fresh h)
                         (spread (initialProps (parts config)) (oprops other))))
          (next_ref r) (map initialCall (parts config) ++ calls r)
  | Throw e => Run (Throw e) (next_ref r) (map initialCall (parts config) ++ calls r)
  end.
Proof.
  unfold reducerWithOther, mbind, M_bind, new_object.
  cbn [completion_of next_ref calls]. rewrite getInitialState_run.
  cbn [completion_of next_ref calls]. cbv zeta.
  destruct (additionalReducer None action (S (S h))) as [[other|e] h' cs];
    cbn [completion_of next_ref calls app]; [|done].
  unfold mret, M_ret. cbn [completion_of next_ref calls oref oprops].
  by rewrite app_nil_r.
Qed.

(** The additional reducer is the combined reducer of a map, or the
    function that was given. *)
Lemma additionalReducerOf_cases (additionalReducer : RootReducer) :
  additionalReducerOf (otherReducer config) = Some additionalReducer ->
  additionalReducer = combineOtherReducers (reducersOf (otherReducer config)) \/
  exists f, otherReducer config = ORFunction f /\ additionalReducer = invokeOther f.
Proof.
  unfold additionalReducerOf. destruct (isReducersMap _).
  - intros [= <-]. by left.
  - destruct (otherReducer config) as [f| |]; try done.
    intros [= <-]. right. by exists f.
Qed.
End RootReducerSteps.

(** ** When nothing changes *)

(** Along a list of keys, either no result is [undefined] or there is a first
    key whose result is. *)
Lemma first_undefined (result : string -> value) (ks : list string) :
  (forall k, In k ks -> result k <> VUndefined) \/
  (exists before key after,
     ks = (before ++ key :: after)%list /\ result key = VUndefined /\
     forall k, In k before -> result k <> VUndefined).
Proof.
  induction ks as [|k ks IH].
  - left. by intros k [].
  - destruct (is_undefined (result k)) eqn:Ek.
    + right. exists [], k, ks. apply is_undefined_true in Ek.
      split_and!; [done|done|by intros k' []].
    + apply is_undefined_false in Ek.
      destruct IH as [Hall|(before & key & after & -> & Hkey & Hbefore)].
      * left. intros k' [<-|Hin]; [done|by apply Hall].
      * right. exists (k :: before), key, after.
        split_and!; [done|done|]. intros k' [<-|Hin]; [done|by apply Hbefore].
Qed.

Section CombinedRun.
Context `{Host}.

(** The two ways a call of the combined reducer can go: every reducer
    returns a defined value and the call returns; or the reducers are called
    up to the first one that returns [undefined], and the call throws the
    error built for its key. *)
Lemma combineOtherReducers_run
    (reducers : object entry) (state : option Obj) (action : Action) h :
  let fr := finalReducersOf reducers in
  let ps := stateProps state in
  let state0 := match state with Some s => s | None => mkObj (Fresh h) [] end in
  let h0 := match state with Some _ => h | None => S h end in
  let r := combineOtherReducers reducers state action h in
  ((forall k, In k (keys fr) -> keyResult fr ps action k <> VUndefined) /\
   r = Run (Return (if existsb (keyChanged fr ps action) (keys fr)
                    then mkObj (Fresh h0)
                           (fold_left (fun acc k => assign acc k (keyResult fr ps action k))
                                      (keys fr) [])
                    else state0))
           (S h0) (map (keyCall fr ps action) (keys fr))) \/
  (exists before key after,
     keys fr = (before ++ key :: after)%list /\
     keyResult fr ps action key = VUndefined /\
     (forall k, In k before -> keyResult fr ps action k <> VUndefined) /\
     r = Run (Throw (Error (undefinedResultMessage action key)))
             (S h0) (map (keyCall fr ps action) (before ++ [key]))).
Proof.
  cbv zeta. rewrite combineOtherReducers_unfold. cbv zeta.
  destruct (first_undefined
              (keyResult (finalReducersOf reducers) (stateProps state) action)
              (keys (finalReducersOf reducers)))
    as [Hall|(before & key & after & Hkeys & Hkey & Hbefore)].
  - left. split; [done|]. rewrite reduceKeys_returns.
    + by rewrite oprops_default_state.
    + intros k Hin. rewrite oprops_default_state.
      split; [by apply has_keys|by apply Hall].
  - right. exists before, key, after. split_and!; try done.
    rewrite Hkeys, reduceKeys_throws.
    + by rewrite oprops_default_state.
    + intros k Hin. rewrite oprops_default_state. split; [|by apply Hbefore].
      apply has_keys. rewrite Hkeys. apply in_or_app. by left.
    + apply has_keys. rewrite Hkeys. apply in_or_app. right. by left.
    + by rewrite oprops_default_state.
Qed.
End CombinedRun.

Section Unchanged.
Context `{Host}.

(** If every call the combined reducer made returned a defined value that
    [is] equates with the value it was given, the combined reducer returned
    the state object it was given. *)
Lemma combineOtherReducers_unchanged
    (reducers : object entry) (state : Obj) (action : Action) h :
  let r := combineOtherReducers reducers (Some state) action h in
  (forall c, In c (calls r) -> is_ (call_state c) (call_result c) = true) ->
  (forall c, In c (calls r) -> call_result c <> VUndefined) ->
  r = Run (Return state) (S h) (calls r).
Proof.
  cbv zeta.
  destruct (first_undefined
              (keyResult (finalReducersOf reducers) (oprops state) action)
              (keys (finalReducersOf reducers)))
    as [Hall|(before & key & after & Hkeys & Hkey & Hbefore)].
  - rewrite combineOtherReducers_returns by done. cbn [calls].
    intros Hsame _.
    assert (existsb (keyChanged (finalReducersOf reducers) (oprops state) action)
                    (keys (finalReducersOf reducers)) = false) as ->; [|done].
    apply not_true_is_false. intros (k & Hin & Hk)%existsb_exists.
    specialize (Hsame _ (in_map (keyCall _ (oprops state) action) _ _ Hin)).
    unfold keyChanged in Hk. cbn [keyCall call_state call_result] in Hsame.
    by rewrite Hsame in Hk.
  - intros _ Hdef. exfalso.
    rewrite combineOtherReducers_unfold in Hdef. cbv zeta in Hdef.
    rewrite Hkeys, reduceKeys_throws in Hdef.
    + apply (Hdef (keyCall (finalReducersOf reducers) (oprops state) action key));
        [|done].
      cbn [completion_of calls]. apply in_map, in_or_app. right. by left.
    + intros k Hin. split; [|by apply Hbefore].
      apply has_keys. rewrite Hkeys. apply in_or_app. by left.
    + apply has_keys. rewrite Hkeys. apply in_or_app. right. by left.
    + done.
Qed.

Lemma combineOtherReducers_calls_keys
    (reducers : object entry) (state : option Obj) (action : Action) h (c : Call) :
  In c (calls (combineOtherReducers reducers state action h)) ->
  exists key, call_to c = KeyReducer key.
Proof.
  rewrite combineOtherReducers_unfold. cbv zeta.
  set (fr := finalReducersOf reducers). set (s0 := match state with Some s => s | None => _ end).
  set (h0 := S _).
  assert (forall ks ns hc, In c (calls (reduceKeys fr s0 action ks ns hc h0)) ->
                           exists key, call_to c = KeyReducer key) as Hloop.
  { induction ks as [|k ks IH]; intros ns hc; [simpl; by intros []|].
    cbn [reduceKeys]. destruct (prop fr k) as [f|]; [|simpl; by intros []].
    unfold mbind, M_bind, invoke. cbn [completion_of next_ref calls].
    destruct (is_undefined _).
    - simpl. intros [<-|[]]; by eexists.
    - destruct (reduceKeys fr s0 action ks _ _ h0) as [[x|e] h' cs] eqn:E;
        cbn [completion_of calls app];
        (intros [<-|Hin]; [by eexists|]);
        apply (IH (assign ns k (f (get (oprops s0) k) action))
                  (hc || negb (is_ (get (oprops s0) k) (f (get (oprops s0) k) action))));
        by rewrite E. }
  destruct (reduceKeys fr s0 action (keys fr) [] false h0) as [[[np hc]|e] h' cs] eqn:E;
    cbn [completion_of calls]; intros Hin;
    apply (Hloop (keys fr) [] false); by rewrite E.
Qed.
End Unchanged.

(** ** Keys are kept *)

Section KeysKept.
Context `{Host}.
Variable config : CreateReducerConfig.


End KeysKept.

(** ** Two runs of one reducer *)

Lemma find_first {A : Type} (f : A -> bool) (l : list A) (x : A) :
  find f l = Some x ->
  exists before after,
    l = (before ++ x :: after)%list /\ f x = true /\
    forall y, In y before -> f y = false.
Proof.
  induction l as [|a l IH]; [done|]. simpl. destruct (f a) eqn:Ea.
  - intros [= <-]. exists [], l. split_and!; [done|done|by intros y []].
  - intros (before & after & -> & Hx & Hb)%IH. exists (a :: before), after.
    split_and!; [done|done|]. intros y [<-|Hin]; [done|by apply Hb].
Qed.

Lemma allocated_before_le (h h' : nat) (o : Obj) :
  h <= h' -> allocated_before h o -> allocated_before h' o.
Proof. unfold allocated_before. destruct (oref o); [lia|done]. Qed.

Lemma allocated_before_fresh (h h' : nat) (ps : props) :
  h < h' -> allocated_before h' (mkObj (Fresh h) ps).
Proof. done. Qed.

Lemma is_fresh_object (h : nat) (o : Obj) (ps : props) :
  allocated_before h o -> is_ (obj_value o) (obj_value (mkObj (Fresh h) ps)) = false.
Proof.
  unfold allocated_before. intros Hb. cbn. apply bool_decide_eq_false.
  intros E. rewrite E in Hb. lia.
Qed.

Lemma twin_fresh (l1 l2 h1 h2 n1 n2 : nat) (ps : props) :
  l1 <= n1 -> l2 <= n2 -> n1 < h1 -> n2 < h2 ->
  twin_objects l1 l2 h1 h2 (mkObj (Fresh n1) ps) (mkObj (Fresh n2) ps).
Proof.
  intros. unfold twin_objects, twin, allocated_before. cbn [oref oprops].
  split_and!; try done. right. by exists n1, n2.
Qed.

Lemma twin_le (l1 l2 h1 h2 h1' h2' : nat) (o1 o2 : Obj) :
  h1 <= h1' -> h2 <= h2' ->
  twin_objects l1 l2 h1 h2 o1 o2 -> twin_objects l1 l2 h1' h2' o1 o2.
Proof.
  intros ? ? (Hprops & Hb1 & Hb2 & Hsame).
  split_and!; try done; by eapply allocated_before_le.
Qed.

Section Determinism.
Context `{Host}.

(** What the combined reducer does is decided by the properties of the
    state: it throws for the first key whose reducer returns [undefined], and
    returns when there is none. *)
Lemma combineOtherReducers_completion
    (reducers : object entry) (state : option Obj) (action : Action) h :
  let fr := finalReducersOf reducers in
  let ps := stateProps state in
  let state0 := match state with Some s => s | None => mkObj (Fresh h) [] end in
  let h0 := match state with Some _ => h | None => S h end in
  let r := combineOtherReducers reducers state action h in
  match find (fun k => is_undefined (keyResult fr ps action k)) (keys fr) with
  | Some key => completion_of r = Throw (Error (undefinedResultMessage action key))
  | None =>
      r = Run (Return (if existsb (keyChanged fr ps action) (keys fr)
                       then mkObj (Fresh h0)
                              (fold_left (fun acc k => assign acc k (keyResult fr ps action k))
                                         (keys fr) [])
                       else state0))
              (S h0) (map (keyCall fr ps action) (keys fr))
  end.
Proof.
  cbv zeta. rewrite combineOtherReducers_unfold. cbv zeta.
  destruct (find _ _) as [key|] eqn:E.
  - apply find_first in E as (before & after & Hkeys & Hkey & Hbefore).
    rewrite Hkeys, reduceKeys_throws; [done| | |].
    + intros k Hin. rewrite oprops_default_state. split.
      * apply has_keys. rewrite Hkeys. apply in_or_app. by left.
      * by apply is_undefined_false, Hbefore.
    + apply has_keys. rewrite Hkeys. apply in_or_app. right. by left.
    + rewrite oprops_default_state. by apply is_undefined_true.
  - rewrite reduceKeys_returns.
    + by rewrite oprops_default_state.
    + intros k Hin. split; [by apply has_keys|].
      rewrite oprops_default_state. apply is_undefined_false.
      by apply (find_none _ _ E).
Qed.

Variable config : CreateReducerConfig.
Variables l1 l2 : nat.

Lemma partsReducer_twin (o1 o2 : Obj) (action : Action) h1 h2 :
  l1 <= h1 -> l2 <= h2 ->
  twin_objects l1 l2 h1 h2 o1 o2 ->
  alike (twin_step l1 l2 h1 h2)
        (partsReducer (partMap config) o1 action h1)
        (partsReducer (partMap config) o2 action h2).
Proof.
  intros Hl1 Hl2 Htwin. pose proof Htwin as (Hprops & _).
  destruct (partMap config !! ToString (get action "$$part")) as [part|] eqn:E.
  - rewrite !(partsReducer_registered config _ _ part) by done. cbv zeta.
    rewrite Hprops. destruct (is_ _ _); unfold alike, twin_step; cbn.
    + done.
    + split; [lia|split; [lia|]]. apply twin_fresh; lia.
  - destruct (partsReducer_not_owned config action E) as [e He].
    rewrite !He. by cbn.
Qed.

Hypothesis blind : forall f, otherReducer config = ORFunction f -> address_blind f.

(** The additional reducer, run on twin states: it throws the same error in
    both runs, or returns objects with the same properties, each the state
    it was given or neither. *)
Lemma additionalReducer_twin (additionalReducer : RootReducer)
    (s1 s2 : option Obj) (action : Action) h1 h2 :
  additionalReducerOf (otherReducer config) = Some additionalReducer ->
  twin l1 l2 h1 h2 s1 s2 ->
  alike (fun h1' h2' n1 n2 =>
           h1 <= h1' /\ h2 <= h2' /\ oprops n1 = oprops n2 /\
           is_ (state_value s1) (obj_value n1) = is_ (state_value s2) (obj_value n2))
        (additionalReducer s1 action h1) (additionalReducer s2 action h2).
Proof.
  intros [->|(f & Hf & ->)]%additionalReducerOf_cases Htwin.
  - pose proof (combineOtherReducers_completion
                  (reducersOf (otherReducer config)) s1 action h1) as R1.
    pose proof (combineOtherReducers_completion
                  (reducersOf (otherReducer config)) s2 action h2) as R2.
    cbv zeta in R1, R2.
    assert (stateProps s1 = stateProps s2) as Hps.
    { destruct s1 as [o1|], s2 as [o2|]; try done. by destruct Htwin. }
    rewrite Hps in R1. destruct (find _ _) as [key|].
    + unfold alike. by rewrite R1, R2.
    + rewrite R1, R2. unfold alike. cbn [completion_of next_ref].
      destruct s1 as [o1|], s2 as [o2|]; try done.
      * destruct Htwin as (Hprops & Hb1 & Hb2 & _). cbn [stateProps].
        destruct (existsb _ _).
        -- split_and!; [lia|lia|done|]. cbn [state_value].
           by rewrite !is_fresh_object.
        -- split_and!; [lia|lia|done|]. cbn [state_value].
           by rewrite !is_same_object.
      * destruct (existsb _ _); split_and!; (lia || done).
  - unfold alike, invokeOther. cbn [completion_of next_ref].
    destruct s1 as [o1|], s2 as [o2|]; try done.
    destruct Htwin as (Hprops & _ & _ & [->|(n1 & n2 & Hr1 & Hr2 & _)]); [done|].
    destruct o1 as [r1 ps1], o2 as [r2 ps2]. cbn in Hprops, Hr1, Hr2. subst.
    destruct (blind f Hf n1 n2 ps2 action) as [Hp His]. split_and!; done.
Qed.

Lemma reducer_twin (reducer : RootReducer)
    (s1 s2 : option Obj) (action : Action) h1 h2 :
  createReducer config = Return reducer ->
  l1 <= h1 -> l2 <= h2 ->
  twin l1 l2 h1 h2 s1 s2 ->
  alike (twin_step l1 l2 h1 h2) (reducer s1 action h1) (reducer s2 action h2).
Proof.
  intros Hmake Hl1 Hl2 Htwin.
  destruct s1 as [o1|], s2 as [o2|]; try done.
  - (* a step from a defined state *)
    destruct (isPartAction action) eqn:Hkind.
    { rewrite !(reducer_part_action config) by done. by apply partsReducer_twin. }
    apply createReducer_cases in Hmake as [[_ ->]|[_ (ad & Had & ->)]].
    { rewrite !reducerOfParts_plain_action by done. by cbn. }
    rewrite !reducerWithOther_plain_action by done. cbv zeta.
    pose proof (additionalReducer_twin ad _ _ action h1 h2 Had Htwin) as Had2.
    destruct Htwin as (Hprops & Hb1 & Hb2 & Hsame).
    unfold alike in *.
    destruct (ad (Some o1) action h1) as [[n1|e1] h1' cs1],
             (ad (Some o2) action h2) as [[n2|e2] h2' cs2];
      cbn [completion_of next_ref calls state_value] in *; try done.
    destruct Had2 as (Hh1 & Hh2 & Hnp & His). rewrite His.
    destruct (is_ (obj_value o2) (obj_value n2)); unfold twin_step; cbn.
    + split; [done|split; [done|]]. by eapply twin_le.
    + rewrite Hprops, Hnp. split; [lia|split; [lia|]]. apply twin_fresh; lia.
  - (* the initialization call *)
    apply createReducer_cases in Hmake as [[_ ->]|[_ (ad & Had & ->)]].
    + rewrite !reducerOfParts_init. cbv zeta.
      destruct (isPartAction action).
      * pose proof (partsReducer_twin
                      (mkObj (Fresh h1) (initialProps (parts config)))
                      (mkObj (Fresh h2) (initialProps (parts config)))
                      action (S h1) (S h2)) as Hstep.
        unfold alike in *. cbn [completion_of next_ref calls].
        destruct (partsReducer _ (mkObj (Fresh h1) _) action (S h1)) as [[n1|e1] h1' cs1],
                 (partsReducer _ (mkObj (Fresh h2) _) action (S h2)) as [[n2|e2] h2' cs2];
          cbn [completion_of next_ref calls] in *.
        -- destruct Hstep as (Hh1 & Hh2 & Hobj); [lia|lia|apply twin_fresh; lia|].
           split; [lia|split; [lia|done]].
        -- apply Hstep; [lia|lia|apply twin_fresh; lia].
        -- apply Hstep; [lia|lia|apply twin_fresh; lia].
        -- apply Hstep; [lia|lia|apply twin_fresh; lia].
      * unfold twin_step. cbn. split; [lia|split; [lia|]]. apply twin_fresh; lia.
    + rewrite !reducerWithOther_init. cbv zeta.
      pose proof (additionalReducer_twin ad None None action (S (S h1)) (S (S h2))
                    Had I) as Had2.
      unfold alike in *.
      destruct (ad None action (S (S h1))) as [[n1|e1] h1' cs1],
               (ad None action (S (S h2))) as [[n2|e2] h2' cs2];
        cbn [completion_of next_ref calls] in *; try done.
      destruct Had2 as (Hh1 & Hh2 & Hnp & _). rewrite Hnp.
      unfold twin_step. split; [lia|split; [lia|]]. apply twin_fresh; lia.
Qed.

Lemma replay_twin (reducer : RootReducer) (actions : list Action)
    (s1 s2 : option Obj) h1 h2 :
  createReducer config = Return reducer ->
  l1 <= h1 -> l2 <= h2 ->
  twin l1 l2 h1 h2 s1 s2 ->
  alike (twin l1 l2) (replay reducer s1 actions h1) (replay reducer s2 actions h2).
Proof.
  intros Hmake. revert s1 s2 h1 h2.
  induction actions as [|action rest IH]; intros s1 s2 h1 h2 Hl1 Hl2 Htwin.
  - by cbn.
  - pose proof (reducer_twin reducer s1 s2 action h1 h2 Hmake Hl1 Hl2 Htwin) as Hstep.
    cbn [replay]. unfold mbind, M_bind. unfold alike in Hstep.
    destruct (reducer s1 action h1) as [[n1|e1] h1' cs1],
             (reducer s2 action h2) as [[n2|e2] h2' cs2];
      cbn [completion_of next_ref calls] in *; try done.
    destruct Hstep as (Hh1 & Hh2 & Hobj).
    specialize (IH (Some n1) (Some n2) h1' h2'). unfold alike in *.
    cbn [completion_of next_ref]. apply IH; (lia || done).
Qed.
End Determinism.

(** * The claims of the specification *)

Section Claims.
Context `{Host}.

(** C1 (as amended).  If, when the combined reducer is applied to a state
    and an action, the reducer kept under [key] is called and returns
    [undefined], the combined reducer throws an [Error]; its message names
    [key], and it includes the action's type tag when that tag is truthy. *)
Theorem undefined_result_is_fatal
    (reducers : object entry) (state : option Obj) (action : Action) (h : nat)
    (key : string) (c : Call) :
  let r := combineOtherReducers reducers state action h in
  In c (calls r) ->
  call_to c = KeyReducer key ->
  call_result c = VUndefined ->
  let message := undefinedResultMessage action key in
  completion_of r = Throw (Error message) /\
  includes key message = true /\
  (truthy (get action "type") = true ->
   includes (ToString (get action "type")) message = true).
Proof.
  intros r Hin Hto Hres message. split; [|split].
  - subst r.
    destruct (combineOtherReducers_run reducers state action h)
      as [[Hall Hrun]|(before & key0 & after & Hkeys & Hkey0 & Hbefore & Hrun)];
      rewrite Hrun in *; cbn [calls completion_of] in *;
      apply in_map_iff in Hin as (k & <- & Hk).
    + destruct (Hall k Hk). apply Hres.
    + apply in_app_or in Hk as [Hk|[<-|[]]].
      * destruct (Hbefore k Hk). apply Hres.
      * cbn in Hto. by injection Hto as ->.
  - unfold message, undefinedResultMessage. cbv zeta.
    do 4 apply includes_append_r. apply includes_head.
  - intros Htruthy. unfold message, undefinedResultMessage. cbv zeta.
    rewrite Htruthy. apply includes_append_r.
    rewrite append_assoc. apply includes_append_r.
    rewrite append_assoc. apply includes_head.
Qed.


Lemma part_action_unchanged
    (config : CreateReducerConfig) (state : Obj) (action : Action) (h : nat) :
  is_Some (partMap config !! ToString (get action "$$part")) ->
  let r := partsReducer (partMap config) state action h in
  (forall c, In c (calls r) -> is_ (call_state c) (call_result c) = true) ->
  completion_of r = Return state.
Proof.
  intros [part Hpart]. cbv zeta.
  rewrite (partsReducer_registered config _ _ part) by done. cbv zeta.
  destruct (is_ _ _) eqn:Eis; [done|]. cbn [calls]. intros Hsame.
  specialize (Hsame (partCall part state action) (or_introl eq_refl)).
  cbn in Hsame. by rewrite Hsame in Eis.
Qed.

(** C3 (as amended).  Take a reducer built by [createReducer], a defined
    state and an action whose part target, if it is a part action, is
    registered.  If every reducer called while the action is processed
    returns a value that [is] equates with the value it was given, and no
    reducer of a reducers map returns [undefined], the reducer returns the
    state object itself.  Likewise the reducer returned by
    [combineOtherReducers] returns the state object it was given when every
    reducer it calls returns a defined value that [is] equates with the
    previous one. *)
Theorem unchanged_state_is_returned_itself
    (config : CreateReducerConfig) (reducer : RootReducer)
    (reducers : object entry) (state : Obj) (action : Action) (h : nat) :
  (createReducer config = Return reducer ->
   (isPartAction action = true ->
    is_Some (partMap config !! ToString (get action "$$part"))) ->
   let r := reducer (Some state) action h in
   (forall c, In c (calls r) -> is_ (call_state c) (call_result c) = true) ->
   (forall c key, In c (calls r) -> call_to c = KeyReducer key ->
                  call_result c <> VUndefined) ->
   completion_of r = Return state) /\
  (let r := combineOtherReducers reducers (Some state) action h in
   (forall c, In c (calls r) -> is_ (call_state c) (call_result c) = true) ->
   (forall c, In c (calls r) -> call_result c <> VUndefined) ->
   completion_of r = Return state).
Proof.
  split.
  - intros Hmake Hregistered. cbv zeta.
    destruct (isPartAction action) eqn:Hkind.
    { rewrite (reducer_part_action config) by done. intros Hsame _.
      apply part_action_unchanged; auto. }
    apply createReducer_cases in Hmake as [[_ ->]|[_ (ad & Had & ->)]].
    { by rewrite reducerOfParts_plain_action. }
    rewrite reducerWithOther_plain_calls by done. intros Hsame Hdef.
    rewrite reducerWithOther_plain_action by done. cbv zeta.
    apply additionalReducerOf_cases in Had as [->|(f & _ & ->)].
    + rewrite combineOtherReducers_unchanged.
      * cbn [completion_of]. by rewrite is_same_object.
      * done.
      * intros c Hin.
        destruct (combineOtherReducers_calls_keys _ _ _ _ _ Hin) as [key Hkey].
        by eapply Hdef.
    + unfold invokeOther in *. cbn [completion_of next_ref calls] in *.
      specialize (Hsame _ (or_introl eq_refl)).
      cbn [call_state call_result state_value] in Hsame. by rewrite Hsame.
  - cbv zeta. intros Hsame Hdef. by rewrite combineOtherReducers_unchanged.
Qed.

(** C4.  For a reducer built by [createReducer], a defined state and a part
    action whose target is the registered part [part] with owner key [k]: if
    [is] tells the value the part's reducer returns from the value under
    [k], the result is a newly allocated object that holds the new value
    under [k] and, under every other key, exactly what the state held. *)
Theorem part_action_replaces_one_key
    (config : CreateReducerConfig) (reducer : RootReducer)
    (state : Obj) (action : Action) (h : nat) (part : Part) :
  createReducer config = Return reducer ->
  isPartAction action = true ->
  partMap config !! ToString (get action "$$part") = Some part ->
  let k := Part.o part in
  let prev := get (oprops state) k in
  let next := Part.r part prev action in
  is_ prev next = false ->
  exists result,
    completion_of (reducer (Some state) action h) = Return result /\
    oref result = Fresh h /\
    (allocated_before h state -> oref result <> oref state) /\
    get (oprops result) k = next /\
    forall k', k' <> k -> prop (oprops result) k' = prop (oprops state) k'.
Proof.
  intros Hmake Hkind Hpart k prev next Hchanged.
  rewrite (reducer_part_action config) by done.
  rewrite (partsReducer_registered config _ _ part) by done. cbv zeta.
  fold k prev next. rewrite Hchanged.
  eexists. split; [done|]. cbn [oref oprops]. split_and!.
  - done.
  - unfold allocated_before. intros Hbefore Heq. rewrite <- Heq in Hbefore. lia.
  - apply get_assign_eq.
  - intros k' Hne. by apply prop_assign_ne.
Qed.

(** C5 (as amended).  For a reducer built by [createReducer], the results of
    [reducer(undefined, a1)] and [reducer(undefined, a2)] are equal, key by
    key, in two cases: no other reducer was given and neither action is a
    part action (the result is then what [getInitialState] builds); or an
    other reducer was given and its own results for [(undefined, a1)] and
    [(undefined, a2)] are equal. *)
Theorem initial_state_agrees
    (config : CreateReducerConfig) (reducer : RootReducer)
    (a1 a2 : Action) (h1 h2 : nat) :
  createReducer config = Return reducer ->
  (otherReducerTruthy (otherReducer config) = false ->
   isPartAction a1 = false /\ isPartAction a2 = false) ->
  (forall additionalReducer,
     otherReducerTruthy (otherReducer config) = true ->
     additionalReducerOf (otherReducer config) = Some additionalReducer ->
     forall h h', agree (completion_of (additionalReducer None a1 h))
                        (completion_of (additionalReducer None a2 h'))) ->
  agree (completion_of (reducer None a1 h1)) (completion_of (reducer None a2 h2)).
Proof.
  intros Hmake Hparts Hother.
  apply createReducer_cases in Hmake as [[Hnone ->]|[Hsome (ad & Had & ->)]].
  - destruct (Hparts Hnone) as [Hplain1 Hplain2].
    rewrite !reducerOfParts_init. cbv zeta. by rewrite Hplain1, Hplain2.
  - rewrite !reducerWithOther_init. cbv zeta.
    specialize (Hother ad Hsome Had (S (S h1)) (S (S h2))).
    destruct (ad None a1 (S (S h1))) as [[o1|e1] h1' cs1],
             (ad None a2 (S (S h2))) as [[o2|e2] h2' cs2];
      cbn [agree completion_of oprops] in *; [by rewrite Hother|done..].
Qed.



(** C8 (as amended).  When the [otherReducer] given to [createReducer] is
    truthy and is neither a function nor a reducers map, [createReducer]
    throws a [ReferenceError] whose message ends with [typeof otherReducer];
    no reducer is returned. *)
Theorem invalid_otherReducer_is_rejected (config : CreateReducerConfig) :
  otherReducerTruthy (otherReducer config) = true ->
  isReducersMap (otherReducer config) = false ->
  otherReducerTypeof (otherReducer config) <> "function" ->
  let message := invalidOtherReducerMessage (otherReducer config) in
  createReducer config = Throw (ReferenceError message) /\
  includes (otherReducerTypeof (otherReducer config)) message = true.
Proof.
  intros Htruthy Hmap Htype message. split.
  - unfold createReducer, additionalReducerOf. rewrite Htruthy, Hmap.
    by destruct (otherReducer config).
  - unfold message, invalidOtherReducerMessage.
    apply includes_append_r, includes_self.
Qed.

(** C9.  Take a reducer built by [createReducer] from pure reducers: the
    part reducers and the reducers of a map are functions of their
    arguments, and an other reducer given as a function cannot see where the
    state object was allocated.  Replaying a list of actions from a state
    twice, the second run starting after the first has allocated objects,
    ends alike: both runs throw the same error, or both return states with
    the same keys, each holding the very same value in both; the two states
    are one object, or each was allocated by its own run. *)
Theorem replay_is_deterministic
    (config : CreateReducerConfig) (reducer : RootReducer)
    (actions : list Action) (state : option Obj) (h1 h2 : nat) :
  createReducer config = Return reducer ->
  (forall f, otherReducer config = ORFunction f -> address_blind f) ->
  (forall o, state = Some o -> allocated_before h1 o /\ allocated_before h2 o) ->
  alike (twin h1 h2)
        (replay reducer state actions h1) (replay reducer state actions h2).
Proof.
  intros Hmake Hblind Hstate.
  apply (replay_twin config h1 h2 Hblind); [done|lia|lia|].
  destruct state as [o|]; [|done].
  destruct (Hstate o eq_refl). split_and!; auto.
Qed.

End Claims.

(** * The claims on concrete inputs *)

Section Examples.
#[local] Existing Instance exampleHost.

(** The scenario of the specification: one part [counter], no other
    reducer. *)
Example counter_scenario :
  completion_of (getInitialState [counterPart] 0) =
    Return (mkObj (Fresh 0) [("counter", VNum zero)]) /\
  completion_of (reducerOfParts counterConfig (Some counterAtZero) increment 0) =
    Return (mkObj (Fresh 0) [("counter", VNum one)]) /\
  completion_of (reducerOfParts counterConfig (Some counterAtZero) noop 0) =
    Return counterAtZero.
Proof. by vm_compute. Qed.

(** C1, counterexample to the claim as stated: the action has the type tag
    [0], the reducer under [gone] returns [undefined], and the message of
    the error does not include the tag. *)
Lemma falsy_type_tag_is_not_reported :
  let action := [("type", VNum zero)] in
  let r := combineOtherReducers [("gone", EFunction lose)] None action 0 in
  has action "type" = true /\
  In (mkCall (KeyReducer "gone") VUndefined action VUndefined) (calls r) /\
  exists message,
    completion_of r = Throw (Error message) /\
    includes (ToString (get action "type")) message = false.
Proof. cbv zeta. split; [done|]. split; [by left|]. eexists. by vm_compute. Qed.

Lemma undefined_result_is_fatal_witness :
  let action := [("type", VStr "ping")] in
  let r := combineOtherReducers
             [("ui", EFunction uiReducer); ("gone", EFunction lose)] None action 0 in
  let message := undefinedResultMessage action "gone" in
  completion_of r = Throw (Error message) /\
  includes "gone" message = true /\
  (truthy (get action "type") = true -> includes "ping" message = true).
Proof.
  apply (undefined_result_is_fatal
           [("ui", EFunction uiReducer); ("gone", EFunction lose)] None
           [("type", VStr "ping")] 0 "gone"
           (mkCall (KeyReducer "gone") VUndefined [("type", VStr "ping")] VUndefined)).
  - vm_compute. right. left. reflexivity.
  - reflexivity.
  - reflexivity.
Defined.



(** C3, counterexample to the claim as stated: the only reducer called
    returns what it was given, and the reducer throws instead of returning
    the state. *)
Lemma unchanged_undefined_is_not_returned :
  let state := mkObj (Given 1) [] in
  let reducer := reducerWithOther keepConfig (combineOtherReducers [("a", EFunction keep)]) in
  let r := reducer (Some state) noop 0 in
  createReducer keepConfig = Return reducer /\
  (forall c, In c (calls r) -> is_ (call_state c) (call_result c) = true) /\
  completion_of r <> Return state.
Proof.
  cbv zeta. split; [reflexivity|]. split.
  - vm_compute. intros c [<-|[]]. reflexivity.
  - vm_compute. discriminate.
Qed.

Lemma unchanged_state_is_returned_itself_witness :
  let state := mkObj (Given 1) [("counter", VNum zero); ("ui", VStr "closed")] in
  completion_of (reducerWithOther uiConfig (combineOtherReducers uiReducers)
                                  (Some state) noop 0) = Return state /\
  completion_of (combineOtherReducers uiReducers (Some state) noop 0) = Return state.
Proof.
  cbv zeta.
  destruct (unchanged_state_is_returned_itself
              uiConfig (reducerWithOther uiConfig (combineOtherReducers uiReducers))
              uiReducers
              (mkObj (Given 1) [("counter", VNum zero); ("ui", VStr "closed")])
              noop 0) as [Hroot Hcombined].
  split.
  - apply Hroot.
    + reflexivity.
    + intros Hpart. vm_compute in Hpart. discriminate.
    + vm_compute. intros c [<-|[]]. reflexivity.
    + vm_compute. intros c key [<-|[]] _. discriminate.
  - apply Hcombined.
    + vm_compute. intros c [<-|[]]. reflexivity.
    + vm_compute. intros c [<-|[]]. discriminate.
Defined.

Lemma part_action_replaces_one_key_witness :
  exists result,
    completion_of (reducerOfParts counterConfig (Some counterAtZero) increment 5) =
      Return result /\
    oref result = Fresh 5 /\
    (allocated_before 5 counterAtZero -> oref result <> oref counterAtZero) /\
    get (oprops result) "counter" = VNum one /\
    forall k', k' <> "counter" ->
               prop (oprops result) k' = prop (oprops counterAtZero) k'.
Proof.
  apply (part_action_replaces_one_key
           counterConfig (reducerOfParts counterConfig) counterAtZero increment 5
           counterPart); reflexivity.
Defined.

(** C5, counterexample to the claim as stated: with the reducers map
    [{ ui }], the state an initialization call returns depends on the action
    that triggers it. *)
Lemma initial_state_depends_on_the_action :
  let reducer := reducerWithOther uiConfig (combineOtherReducers uiReducers) in
  createReducer uiConfig = Return reducer /\
  completion_of (reducer None open 0) =
    Return (mkObj (Fresh 0) [("counter", VNum zero); ("ui", VStr "opened")]) /\
  completion_of (reducer None noop 0) =
    Return (mkObj (Fresh 0) [("counter", VNum zero); ("ui", VStr "closed")]) /\
  ~ agree (completion_of (reducer None open 0)) (completion_of (reducer None noop 0)).
Proof.
  cbv zeta. split_and!; [reflexivity|by vm_compute|by vm_compute|].
  vm_compute. discriminate.
Qed.

(** The same without an other reducer: a part action that triggers the
    initialization is applied to the initial state. *)
Example initial_state_depends_on_a_part_action :
  completion_of (reducerOfParts counterConfig None increment 0) =
    Return (mkObj (Fresh 1) [("counter", VNum one)]) /\
  completion_of (reducerOfParts counterConfig None noop 0) =
    Return (mkObj (Fresh 0) [("counter", VNum zero)]).
Proof. by vm_compute. Qed.

Lemma initial_state_agrees_witness :
  agree (completion_of (reducerWithOther uiConfig (combineOtherReducers uiReducers)
                                         None noop 0))
        (completion_of (reducerWithOther uiConfig (combineOtherReducers uiReducers)
                                         None [("type", VStr "other")] 3)).
Proof.
  apply (initial_state_agrees
           uiConfig (reducerWithOther uiConfig (combineOtherReducers uiReducers))
           noop [("type", VStr "other")] 0 3).
  - reflexivity.
  - intros Hnone. vm_compute in Hnone. discriminate.
  - intros additionalReducer _ Hadditional h h'.
    vm_compute in Hadditional. injection Hadditional as <-.
    vm_compute. reflexivity.
Defined.


(** Of two parts named [title] the later one decides the value, and each
    reducer is called once. *)
Example later_part_overwrites :
  getInitialState [draftPart; finalPart] 0 =
  Run (Return (mkObj (Fresh 0) [("title", VStr "final")])) 1
      [mkCall (PartReducer "title") VUndefined [] (VStr "draft");
       mkCall (PartReducer "title") VUndefined [] (VStr "final")].
Proof. by vm_compute. Qed.



(** C8, counterexample to the claim as stated: the number [0] is neither a
    function nor a reducers map, and [createReducer] returns a reducer. *)
Lemma falsy_otherReducer_is_accepted :
  let config := mkConfig (ORValue (VNum zero)) ∅ [] in
  otherReducerTypeof (otherReducer config) = "number" /\
  isReducersMap (otherReducer config) = false /\
  createReducer config = Return (reducerOfParts config).
Proof. cbv zeta. split_and!; reflexivity. Qed.

Lemma invalid_otherReducer_is_rejected_witness :
  let config := mkConfig (ORValue (VStr "reducer")) ∅ [] in
  createReducer config =
    Throw (ReferenceError (invalidOtherReducerMessage (ORValue (VStr "reducer")))) /\
  includes "string" (invalidOtherReducerMessage (ORValue (VStr "reducer"))) = true.
Proof.
  apply (invalid_otherReducer_is_rejected (mkConfig (ORValue (VStr "reducer")) ∅ [])).
  - reflexivity.
  - reflexivity.
  - vm_compute. discriminate.
Defined.

Lemma lastType_is_address_blind : address_blind lastType.
Proof. intros n1 n2 ps action. by cbn. Qed.

Lemma replay_is_deterministic_witness :
  alike (twin 0 7)
        (replay (reducerWithOther lastTypeConfig (invokeOther lastType))
                None [noop; increment; open; increment] 0)
        (replay (reducerWithOther lastTypeConfig (invokeOther lastType))
                None [noop; increment; open; increment] 7).
Proof.
  apply (replay_is_deterministic
           lastTypeConfig (reducerWithOther lastTypeConfig (invokeOther lastType))
           [noop; increment; open; increment] None 0 7).
  - reflexivity.
  - intros f Hf. vm_compute in Hf. injection Hf as <-.
    exact lastType_is_address_blind.
  - intros o Ho. discriminate.
Defined.

(** What the two runs of the last example return. *)
Example replay_twice :
  completion_of (replay (reducerWithOther lastTypeConfig (invokeOther lastType))
                        None [noop; increment; open; increment] 0) =
    Return (Some (mkObj (Fresh 4)
                    [("counter", VNum (plus one one)); ("seen", VStr "open")])) /\
  completion_of (replay (reducerWithOther lastTypeConfig (invokeOther lastType))
                        None [noop; increment; open; increment] 7) =
    Return (Some (mkObj (Fresh 11)
                    [("counter", VNum (plus one one)); ("seen", VStr "open")])).
Proof. by vm_compute. Qed.


(** What the last example returns: the stray key is gone. *)
Example stray_key_is_dropped :
  completion_of (combineOtherReducers uiReducers
                   (Some (mkObj (Given 1) [("ui", VStr "closed"); ("stray", VBool true)]))
                   open 0) =
  Return (mkObj (Fresh 0) [("ui", VStr "opened")]).
Proof. by vm_compute. Qed.
End Examples.

(** * Further properties of the module *)

(** ** Spreads and key lists *)

Lemma prop_spread {A : Type} (base extra : object A) (key : string) :
  NoDup (keys extra) ->
  prop (spread base extra) key =
  match prop extra key with
  | Some v => Some v
  | None => prop base key
  end.
Proof.
  unfold spread. revert base.
  induction extra as [|[k v] rest IH]; intros base Hnd; [done|].
  apply NoDup_cons in Hnd as [Hk Hrest]. cbn [fold_left fst snd prop].
  rewrite IH by done. destruct (String.eqb_spec k key) as [->|Hne].
  - assert (has rest key = false) as Hnone.
    { apply has_false_keys. intros Hin. by apply Hk, list_elem_of_In. }
    unfold has in Hnone. destruct (prop rest key); [done|].
    apply prop_assign_eq.
  - destruct (prop rest key); [done|]. by apply prop_assign_ne.
Qed.


Lemma keys_initial_fold (parts : list Part) (acc : props) :
  NoDup (keys acc ++ map Part.n parts) ->
  keys (fold_left (fun acc part => assign acc (Part.n part) (Part.r part VUndefined []))
                  parts acc) =
  (keys acc ++ map Part.n parts)%list.
Proof.
  revert acc. induction parts as [|part rest IH]; intros acc Hnd; simpl.
  - by rewrite app_nil_r.
  - assert (has acc (Part.n part) = false) as Hk.
    { apply has_false_keys. intros Hin%list_elem_of_In.
      apply NoDup_app in Hnd as (_ & Hdisj & _).
      apply (Hdisj _ Hin), list_elem_of_here. }
    rewrite IH; rewrite keys_assign, Hk, <- ?app_assoc; done.
Qed.

Section CombinedFacts.
Context `{Host}.
Variable reducers : object entry.

Lemma kept_iff (key : string) :
  In key (keys (finalReducersOf reducers)) <->
  exists f, prop reducers key = Some (EFunction f).
Proof.
  rewrite <- has_keys. unfold has. rewrite prop_finalReducersOf.
  destruct (prop reducers key) as [[f|v]|]; split; try done.
  - by exists f.
  - by intros [f ?].
  - by intros [f ?].
Qed.

Lemma no_function_no_key :
  (forall k f, prop reducers k <> Some (EFunction f)) ->
  keys (finalReducersOf reducers) = [].
Proof.
  intros Hnone. destruct (keys (finalReducersOf reducers)) as [|k ks] eqn:E; [done|].
  assert (In k (keys (finalReducersOf reducers))) as Hin by (rewrite E; by left).
  apply kept_iff in Hin as [f Hf]. by destruct (Hnone k f).
Qed.

(** When the combined reducer throws, it is the error built for a key that
    holds a function in the map. *)
Lemma combineOtherReducers_throw_inv (state : option Obj) (action : Action) h (e : error) :
  completion_of (combineOtherReducers reducers state action h) = Throw e ->
  exists key f,
    prop reducers key = Some (EFunction f) /\
    f (get (stateProps state) key) action = VUndefined /\
    e = Error (undefinedResultMessage action key).
Proof.
  destruct (combineOtherReducers_run reducers state action h)
    as [[_ ->]|(before & key & after & Hkeys & Hkey & _ & ->)];
    cbn [completion_of]; [done|]. intros [= <-].
  assert (In key (keys (finalReducersOf reducers))) as Hin.
  { rewrite Hkeys. apply in_or_app. right. by left. }
  apply kept_iff in Hin as [f Hf]. exists key, f. split_and!; [done| |done].
  by erewrite <- kept_keyResult.
Qed.
End CombinedFacts.

(** ** [combineOtherReducers]: construction, calls, initialization *)

Section FurtherCombined.
Context `{Host}.


(** X2.  A map without any function gives a reducer that calls nothing and
    never throws: it returns the state object it is given, and the empty
    default object when the state is [undefined]. *)
Theorem map_without_functions_is_inert
    (reducers : object entry) (state : option Obj) (action : Action) (h : nat) :
  (forall k f, prop reducers k <> Some (EFunction f)) ->
  combineOtherReducers reducers state action h =
  match state with
  | Some s => Run (Return s) (S h) []
  | None => Run (Return (mkObj (Fresh h) [])) (S (S h)) []
  end.
Proof.
  intros Hnone. pose proof (no_function_no_key reducers Hnone) as Hkeys.
  destruct (combineOtherReducers_run reducers state action h)
    as [[_ ->]|(before & key & after & Hsplit & _)].
  - rewrite Hkeys. by destruct state.
  - rewrite Hkeys in Hsplit. by destruct before.
Qed.

(** X3.  The combined reducer calls the reducers in the order of its key
    list, each on the value the state holds under its key, and stops after
    the first that returns [undefined].  Either no reducer of the list returns
    [undefined]: then it returns, and its calls are those of the whole list.
    Or the list splits at the first key whose reducer returns [undefined]:
    then it throws the error for that key, and its calls are those of the
    keys before it followed by the call for that key; no reducer of a later
    key is called. *)
Theorem reducers_are_called_in_key_order
    (reducers : object entry) (state : option Obj) (action : Action) (h : nat) :
  let fr := finalReducersOf reducers in
  let ps := stateProps state in
  let r := combineOtherReducers reducers state action h in
  ((forall k, In k (keys fr) -> keyResult fr ps action k <> VUndefined) /\
   (exists result, completion_of r = Return result) /\
   calls r = map (keyCall fr ps action) (keys fr)) \/
  (exists before key after,
     keys fr = (before ++ key :: after)%list /\
     (forall k, In k before -> keyResult fr ps action k <> VUndefined) /\
     keyResult fr ps action key = VUndefined /\
     completion_of r = Throw (Error (undefinedResultMessage action key)) /\
     calls r = map (keyCall fr ps action) (before ++ [key])%list).
Proof.
  cbv zeta.
  destruct (combineOtherReducers_run reducers state action h)
    as [[Hall ->]|(before & key & after & Hkeys & Hkey & Hbefore & ->)];
    cbn [completion_of calls].
  - left. split_and!; [done| |done]. by eexists.
  - right. by exists before, key, after.
Qed.

End FurtherCombined.

(** ** [createReducer]: construction, routing, merging, errors *)

Section FurtherRoot.
Context `{Host}.


Lemma createReducer_with_function (config : CreateReducerConfig)
    (reducer : RootReducer) (f : option Obj -> Action -> Obj) :
  createReducer config = Return reducer ->
  otherReducer config = ORFunction f ->
  isReducersMap (ORFunction f) = false ->
  reducer = reducerWithOther config (invokeOther f).
Proof.
  unfold createReducer, additionalReducerOf. intros Hmake Hother Hmap.
  rewrite Hother in Hmake. cbn [otherReducerTruthy negb] in Hmake.
  rewrite Hmap in Hmake. by injection Hmake.
Qed.

Lemma partsReducer_throw_inv (config : CreateReducerConfig)
    (state : Obj) (action : Action) h (e : error) :
  completion_of (partsReducer (partMap config) state action h) = Throw e ->
  partMap config !! ToString (get action "$$part") = None /\
  ((inheritedName (ToString (get action "$$part")) = false /\
    e = ReferenceError (unregisteredPartMessage (get action "$$part"))) \/
   (inheritedName (ToString (get action "$$part")) = true /\
    e = TypeError notAFunctionMessage)).
Proof.
  destruct (partMap config !! ToString (get action "$$part")) as [part|] eqn:E.
  - rewrite (partsReducer_registered config _ _ part) by done. cbv zeta.
    by destruct (is_ _ _).
  - destruct (inheritedName (ToString (get action "$$part"))) eqn:E'.
    + rewrite partsReducer_inherited by done. intros [= <-]. split; [done|]. by right.
    + rewrite partsReducer_unregistered by done. intros [= <-]. split; [done|]. by left.
Qed.

(** X5.  [createReducer] returns a reducer exactly when the other reducer is
    falsy, is taken for a reducers map, or is a function; when it is falsy the
    reducer is the one that only serves the parts. *)
Theorem createReducer_accepts (config : CreateReducerConfig) :
  ((exists reducer, createReducer config = Return reducer) <->
   (otherReducerTruthy (otherReducer config) = false \/
    isReducersMap (otherReducer config) = true \/
    exists f, otherReducer config = ORFunction f)) /\
  (otherReducerTruthy (otherReducer config) = false ->
   createReducer config = Return (reducerOfParts config)).
Proof.
  unfold createReducer, additionalReducerOf.
  destruct (otherReducerTruthy (otherReducer config)); cbn [negb].
  - split; [|done]. destruct (isReducersMap (otherReducer config)).
    + split; [auto|]. intros _. by eexists.
    + destruct (otherReducer config) as [f|rs|v].
      * split; [intros _|intros _; by eexists]. right. right. by exists f.
      * split; [by intros [? ?]|]. by intros [?|[?|[? ?]]].
      * split; [by intros [? ?]|]. by intros [?|[?|[? ?]]].
  - split; [|done]. split; [auto|]. intros _. by eexists.
Qed.



(** X8.  With an other reducer given as a function, the initialization call
    returns a new object that holds every key of the object the function
    returns for [undefined], with its value, and under every other key what
    [getInitialState] put there: on a collision the other reducer wins. *)
Theorem initial_state_with_other_function
    (config : CreateReducerConfig) (reducer : RootReducer)
    (f : option Obj -> Action -> Obj) (action : Action) (h : nat) :
  createReducer config = Return reducer ->
  otherReducer config = ORFunction f ->
  isReducersMap (ORFunction f) = false ->
  NoDup (keys (oprops (f None action))) ->
  exists result,
    completion_of (reducer None action h) = Return result /\
    oref result = Fresh h /\
    forall k, prop (oprops result) k =
              match prop (oprops (f None action)) k with
              | Some v => Some v
              | None => prop (initialProps (parts config)) k
              end.
Proof.
  intros Hmake Hother Hmap Hnd.
  apply (createReducer_with_function config reducer f) in Hmake; [|done..].
  subst reducer. rewrite reducerWithOther_init. cbv zeta.
  unfold invokeOther. cbn [completion_of next_ref calls].
  eexists. split; [done|]. cbn [oref oprops]. split; [done|].
  intros k. by apply prop_spread.
Qed.


(** X10.  With an other reducer given as a function, an action that is not a
    part action, on a defined state: when the function returns another
    object than the state, the reducer returns a new object that holds every
    key of the returned object, with its value, and under every other key
    exactly what the state held.  The other reducer cannot remove a key by
    leaving it out. *)
Theorem other_function_result_is_merged
    (config : CreateReducerConfig) (reducer : RootReducer)
    (f : option Obj -> Action -> Obj) (state : Obj) (action : Action) (h : nat) :
  createReducer config = Return reducer ->
  otherReducer config = ORFunction f ->
  isReducersMap (ORFunction f) = false ->
  isPartAction action = false ->
  is_ (obj_value state) (obj_value (f (Some state) action)) = false ->
  NoDup (keys (oprops (f (Some state) action))) ->
  exists result,
    reducer (Some state) action h =
      Run (Return result) (S h)
          [mkCall OtherReducerFn (obj_value state) action
                  (obj_value (f (Some state) action))] /\
    oref result = Fresh h /\
    forall k, prop (oprops result) k =
              match prop (oprops (f (Some state) action)) k with
              | Some v => Some v
              | None => prop (oprops state) k
              end.
Proof.
  intros Hmake Hother Hmap Hplain Hnew Hnd.
  apply (createReducer_with_function config reducer f) in Hmake; [|done..].
  subst reducer. rewrite reducerWithOther_plain_action by done. cbv zeta.
  unfold invokeOther. cbn [completion_of next_ref calls state_value].
  rewrite Hnew. eexists. split; [done|]. cbn [oref oprops]. split; [done|].
  intros k. by apply prop_spread.
Qed.

(** X11.  A part action on a defined state calls one reducer, that of the
    target part, on the value under the part's owner key; the other reducer
    is not called.  An object is allocated only when [is] tells the result
    from the previous value. *)
Theorem part_action_calls_only_its_part
    (config : CreateReducerConfig) (reducer : RootReducer)
    (state : Obj) (action : Action) (h : nat) (part : Part) :
  createReducer config = Return reducer ->
  isPartAction action = true ->
  partMap config !! ToString (get action "$$part") = Some part ->
  let prev := get (oprops state) (Part.o part) in
  let r := reducer (Some state) action h in
  calls r =
    [mkCall (PartReducer (Part.n part)) prev action (Part.r part prev action)] /\
  next_ref r = if is_ prev (Part.r part prev action) then h else S h.
Proof.
  intros Hmake Hkind Hpart. cbv zeta.
  rewrite (reducer_part_action config) by done.
  rewrite (partsReducer_registered config _ _ part) by done. cbv zeta.
  by destruct (is_ _ _).
Qed.

(** X12.  An action that is not a part action, on a defined state, never
    reaches the reducer of a part. *)
Theorem plain_action_calls_no_part
    (config : CreateReducerConfig) (reducer : RootReducer)
    (state : Obj) (action : Action) (h : nat) (c : Call) (n : string) :
  createReducer config = Return reducer ->
  isPartAction action = false ->
  In c (calls (reducer (Some state) action h)) ->
  call_to c <> PartReducer n.
Proof.
  intros Hmake Hplain.
  apply createReducer_cases in Hmake as [[_ ->]|[_ (ad & Had & ->)]].
  - rewrite reducerOfParts_plain_action by done. by intros [].
  - rewrite reducerWithOther_plain_calls by done.
    apply additionalReducerOf_cases in Had as [->|(f & _ & ->)].
    + intros [key Hkey]%combineOtherReducers_calls_keys. by rewrite Hkey.
    + unfold invokeOther. cbn [calls]. by intros [<-|[]].
Qed.

(** X13.  The errors a reducer built by [createReducer] can throw: on a part
    action whose target is not an entry of the part map, the [ReferenceError]
    for that target, or, when the target is the name of a member the part map
    inherits from [Object.prototype], the [TypeError] of calling a reducer
    that is not there; through a reducers map, the [Error] for a key whose
    reducer returned [undefined].  It throws no other error. *)
Theorem reducer_throws_only_these_errors
    (config : CreateReducerConfig) (reducer : RootReducer)
    (state : option Obj) (action : Action) (h : nat) (e : error) :
  createReducer config = Return reducer ->
  completion_of (reducer state action h) = Throw e ->
  (isPartAction action = true /\
   partMap config !! ToString (get action "$$part") = None /\
   inheritedName (ToString (get action "$$part")) = false /\
   e = ReferenceError (unregisteredPartMessage (get action "$$part"))) \/
  (isPartAction action = true /\
   partMap config !! ToString (get action "$$part") = None /\
   inheritedName (ToString (get action "$$part")) = true /\
   e = TypeError notAFunctionMessage) \/
  (isReducersMap (otherReducer config) = true /\
   exists key f,
     prop (reducersOf (otherReducer config)) key = Some (EFunction f) /\
     f (get (stateProps state) key) action = VUndefined /\
     e = Error (undefinedResultMessage action key)).
Proof.
  intros Hmake Hthrow.
  assert (forall ad s h',
            additionalReducerOf (otherReducer config) = Some ad ->
            completion_of (ad s action h') = Throw e ->
            isReducersMap (otherReducer config) = true /\
            exists key f,
              prop (reducersOf (otherReducer config)) key = Some (EFunction f) /\
              f (get (stateProps s) key) action = VUndefined /\
              e = Error (undefinedResultMessage action key)) as Hother.
  { intros ad s h'. unfold additionalReducerOf.
    destruct (isReducersMap (otherReducer config)).
    - intros [= <-] Hrun. split; [done|]. by eapply combineOtherReducers_throw_inv.
    - destruct (otherReducer config) as [f| |]; try done. by intros [= <-]. }
  assert (forall s h',
            isPartAction action = true ->
            completion_of (partsReducer (partMap config) s action h') = Throw e ->
            (isPartAction action = true /\
             partMap config !! ToString (get action "$$part") = None /\
             inheritedName (ToString (get action "$$part")) = false /\
             e = ReferenceError (unregisteredPartMessage (get action "$$part"))) \/
            (isPartAction action = true /\
             partMap config !! ToString (get action "$$part") = None /\
             inheritedName (ToString (get action "$$part")) = true /\
             e = TypeError notAFunctionMessage)) as Hparts.
  { intros s h' Hkind Hrun.
    apply partsReducer_throw_inv in Hrun as [Hnone [[Hinh ->]|[Hinh ->]]].
    - by left.
    - by right. }
  destruct state as [s|].
  - destruct (isPartAction action) eqn:Hkind.
    { rewrite (reducer_part_action config) in Hthrow by done.
      destruct (Hparts s h eq_refl Hthrow) as [Hcase|Hcase]; [by left|by right; left]. }
    apply createReducer_cases in Hmake as [[_ ->]|[_ (ad & Had & ->)]].
    { by rewrite reducerOfParts_plain_action in Hthrow. }
    rewrite reducerWithOther_plain_action in Hthrow by done. cbv zeta in Hthrow.
    right; right. apply (Hother ad (Some s) h Had).
    destruct (ad (Some s) action h) as [[next|e'] h' cs];
      cbn [completion_of next_ref calls] in *; [|done].
    by destruct (is_ (obj_value s) (obj_value next)).
  - apply createReducer_cases in Hmake as [[_ ->]|[_ (ad & Had & ->)]].
    + rewrite reducerOfParts_init in Hthrow. cbv zeta in Hthrow.
      destruct (isPartAction action) eqn:Hkind; [|done].
      cbn [completion_of] in Hthrow.
      destruct (Hparts _ _ eq_refl Hthrow) as [Hcase|Hcase]; [by left|by right; left].
    + rewrite reducerWithOther_init in Hthrow. cbv zeta in Hthrow.
      right; right. apply (Hother ad None (S (S h)) Had).
      by destruct (ad None action (S (S h))) as [[other|e'] h' cs].
Qed.
End FurtherRoot.

(** ** [getInitialState] for parts with distinct names *)

(** X14.  When no two parts have the same name and every name is a key that
    an assignment appends (it does not start with a digit, so it is not one
    of the integer-like keys that JavaScript lists first, and it is not
    [__proto__]), [getInitialState] returns an object whose keys are the names
    of the parts in the order of the list, each holding what its part's
    reducer returns for [undefined] and an empty action. *)
Theorem initial_state_lists_the_parts (parts : list Part) (h : nat) :
  NoDup (map Part.n parts) ->
  (forall part, In part parts -> appendedKey (Part.n part) = true) ->
  exists result,
    completion_of (getInitialState parts h) = Return result /\
    keys (oprops result) = map Part.n parts /\
    forall part, In part parts ->
                 prop (oprops result) (Part.n part) = Some (Part.r part VUndefined []).
Proof.
  intros Hnd _. rewrite getInitialState_run. eexists. split; [done|].
  cbn [oprops]. split.
  - unfold initialProps. by rewrite keys_initial_fold.
  - intros part (before & after & ->)%in_split.
    apply prop_initialProps_last. intros q Hq Heq.
    rewrite map_app in Hnd. apply NoDup_app in Hnd as (_ & _ & Hnd).
    cbn [map] in Hnd. apply NoDup_cons in Hnd as [Hnotin _].
    apply Hnotin, list_elem_of_In, in_map_iff. by exists q.
Qed.

(** ** The initialization call and the action that triggers it *)

Section FurtherInit.
Context `{Host}.

(** X18.  With an other reducer, the initialization call does not dispatch
    the action that triggers it to any part, also when it is a part action:
    the reducers of the parts are called with [undefined] and an empty action
    only. *)
Theorem initialization_with_other_reducer_skips_parts
    (config : CreateReducerConfig) (reducer : RootReducer)
    (action : Action) (h : nat) (c : Call) (n : string) :
  createReducer config = Return reducer ->
  otherReducerTruthy (otherReducer config) = true ->
  In c (calls (reducer None action h)) ->
  call_to c = PartReducer n ->
  call_state c = VUndefined /\ call_action c = [].
Proof.
  intros Hmake Htruthy Hin Hto.
  apply createReducer_cases in Hmake as [[Hfalse _]|[_ (ad & Had & ->)]];
    [congruence|].
  rewrite reducerWithOther_init in Hin. cbv zeta in Hin.
  assert (In c (map initialCall (parts config)) \/
          In c (calls (ad None action (S (S h))))) as [Hinit|Hother].
  { destruct (ad None action (S (S h))) as [[other|e] h' cs];
      cbn [completion_of next_ref calls] in *; by apply in_app_or. }
  - apply in_map_iff in Hinit as (part & <- & _). done.
  - apply additionalReducerOf_cases in Had as [->|(f & _ & ->)].
    + apply combineOtherReducers_calls_keys in Hother as [key Hkey]. congruence.
    + unfold invokeOther in Hother. cbn [calls] in Hother.
      destruct Hother as [<-|[]]. done.
Qed.

(** X19.  Without an other reducer, dispatching an action on an [undefined]
    state is initializing first and dispatching then: for any action [plain]
    that is not a part action, the call [reducer(undefined, plain)] returns
    the initial state, and the call on that state with [action] completes as
    [reducer(undefined, action)] does. *)
Theorem dispatch_on_undefined_is_init_then_dispatch
    (config : CreateReducerConfig) (reducer : RootReducer)
    (plain action : Action) (h : nat) :
  createReducer config = Return reducer ->
  otherReducerTruthy (otherReducer config) = false ->
  isPartAction plain = false ->
  exists initial,
    reducer None plain h =
      Run (Return initial) (S h) (map initialCall (parts config)) /\
    oprops initial = initialProps (parts config) /\
    completion_of (reducer (Some initial) action (S h)) =
    completion_of (reducer None action h) /\
    next_ref (reducer (Some initial) action (S h)) =
    next_ref (reducer None action h).
Proof.
  intros Hmake Hfalse Hplain.
  apply createReducer_cases in Hmake as [[_ ->]|[Htrue _]]; [|congruence].
  exists (mkObj (Fresh h) (initialProps (parts config))).
  rewrite !reducerOfParts_init. cbv zeta. rewrite Hplain.
  split; [done|]. split; [done|].
  unfold reducerOfParts. destruct (isPartAction action).
  - unfold mbind, M_bind, mret, M_ret. cbn [completion_of next_ref calls]. done.
  - done.
Qed.
End FurtherInit.

(** ** The flags *)

Section FlagFacts.
Import Flags.
Local Open Scope Z_scope.

Lemma lor_nonzero (a b : Z) : Z.lor a b <> 0 <-> a <> 0 \/ b <> 0.
Proof. rewrite Z.lor_eq_0_iff. lia. Qed.

(** A word has at most the bit of a one-bit mask in common with it. *)
Lemma land_bit (f : Z) (n : Z) :
  0 <= n -> Z.land f (2 ^ n) = 0 \/ Z.land f (2 ^ n) = 2 ^ n.
Proof.
  intros Hn. destruct (Z.testbit f n) eqn:E.
  - right. apply Z.bits_inj'. intros i Hi. rewrite Z.land_spec.
    destruct (Z.eq_dec i n) as [->|Hne].
    + rewrite E. by rewrite Z.pow2_bits_true.
    + rewrite Z.pow2_bits_false by lia. apply andb_false_r.
  - left. apply Z.bits_inj'. intros i Hi. rewrite Z.land_spec, Z.bits_0.
    destruct (Z.eq_dec i n) as [->|Hne].
    + by rewrite E.
    + rewrite Z.pow2_bits_false by lia. apply andb_false_r.
Qed.

(** X15.  A flag word that has a bit in common with [STATEFUL_PART] has one
    in common with [SELECTABLE_PART] and one with [UPDATEABLE_PART]: every
    stateful part is selectable and updateable. *)
Theorem stateful_is_selectable_and_updateable (f : Z) :
  Z.land f STATEFUL_PART <> 0 ->
  Z.land f SELECTABLE_PART <> 0 /\ Z.land f UPDATEABLE_PART <> 0.
Proof.
  intros Hstateful. unfold SELECTABLE_PART, UPDATEABLE_PART.
  rewrite !Z.land_lor_distr_r, !lor_nonzero. tauto.
Qed.

(** X16.  A flag word has a bit in common with [PART] exactly when it has the
    bit of one of the five kinds, and exactly when it is selectable or
    updateable: the two masks together cover [PART] and nothing else. *)
Theorem part_mask_covers_the_kinds (f : Z) :
  (Z.land f PART <> 0 <->
   Z.land f PRIMITIVE_PART <> 0 \/ Z.land f COMPOSED_PART <> 0 \/
   Z.land f SELECT_PART <> 0 \/ Z.land f UPDATE_PART <> 0 \/
   Z.land f PROXY_PART <> 0) /\
  (Z.land f PART <> 0 <->
   Z.land f SELECTABLE_PART <> 0 \/ Z.land f UPDATEABLE_PART <> 0).
Proof.
  unfold PART, SELECTABLE_PART, UPDATEABLE_PART, STATEFUL_PART.
  rewrite !Z.land_lor_distr_r, !lor_nonzero. tauto.
Qed.

(** X17.  A flag word that is selectable and not updateable has, of the five
    kind bits, the one of [SELECT_PART] only; one that is updateable and not
    selectable has the one of [UPDATE_PART] only. *)
Theorem one_sided_kinds (f : Z) :
  (Z.land f SELECTABLE_PART <> 0 -> Z.land f UPDATEABLE_PART = 0 ->
   Z.land f PART = SELECT_PART) /\
  (Z.land f UPDATEABLE_PART <> 0 -> Z.land f SELECTABLE_PART = 0 ->
   Z.land f PART = UPDATE_PART).
Proof.
  unfold PART, SELECTABLE_PART, UPDATEABLE_PART, STATEFUL_PART.
  rewrite !Z.land_lor_distr_r, !lor_nonzero, !Z.lor_eq_0_iff.
  pose proof (land_bit f 2 ltac:(lia)) as Hselect.
  pose proof (land_bit f 3 ltac:(lia)) as Hupdate.
  change (2 ^ 2) with SELECT_PART in Hselect.
  change (2 ^ 3) with UPDATE_PART in Hupdate.
  split.
  - intros Hsel (((Hp & Hc) & Hx) & Hu).
    rewrite Hp, Hc, Hx, Hu. destruct Hselect as [E|E]; [tauto|]. by rewrite E.
  - intros Hupd (((Hp & Hc) & Hs) & Hx).
    rewrite Hp, Hc, Hs, Hx. destruct Hupdate as [E|E]; [tauto|]. by rewrite E.
Qed.
End FlagFacts.

(** * The further properties on concrete inputs *)

Section FurtherExamples.
#[local] Existing Instance exampleHost.




(** The entry [version], not a function, is left out. *)
Example effective_keys_of_mixedReducers :
  keys (finalReducersOf mixedReducers) = ["ui"].
Proof. reflexivity. Qed.

Lemma map_without_functions_is_inert_witness :
  combineOtherReducers noReducers (Some counterAtZero) noop 4 =
  Run (Return counterAtZero) 5 [].
Proof.
  apply (map_without_functions_is_inert noReducers (Some counterAtZero) noop 4).
  intros k f. unfold noReducers. cbn [prop].
  destruct (String.eqb "version" k); discriminate.
Defined.




(** The part [ui] and the reducer under [ui] collide: the reducer of the map
    decides the value, the part decides the place of the key. *)
Example colliding_initial_state :
  completion_of (reducerWithOther collidingConfig (combineOtherReducers uiReducers)
                                  None noop 0) =
  Return (mkObj (Fresh 0) [("ui", VStr "closed"); ("counter", VNum zero)]).
Proof. by vm_compute. Qed.

Lemma initial_state_with_other_function_witness :
  exists result,
    completion_of (reducerWithOther setUiConfig (invokeOther setUi) None noop 0) =
      Return result /\
    oref result = Fresh 0 /\
    forall k, prop (oprops result) k =
              match prop (oprops (setUi None noop)) k with
              | Some v => Some v
              | None => prop (initialProps (parts setUiConfig)) k
              end.
Proof.
  apply (initial_state_with_other_function
           setUiConfig (reducerWithOther setUiConfig (invokeOther setUi)) setUi noop 0).
  - reflexivity.
  - reflexivity.
  - reflexivity.
  - apply (bool_decide_unpack _). by vm_compute.
Defined.


(** The key [counter], which the map does not manage, is still there. *)
Example plain_action_keeps_the_part_state :
  completion_of (reducerWithOther uiConfig (combineOtherReducers uiReducers)
                   (Some (mkObj (Given 1) [("counter", VNum one); ("ui", VStr "closed")]))
                   open 0) =
  Return (mkObj (Fresh 1) [("counter", VNum one); ("ui", VStr "opened")]).
Proof. by vm_compute. Qed.

Lemma other_function_result_is_merged_witness :
  let state := mkObj (Given 1) [("ui", VStr "part"); ("counter", VNum zero)] in
  exists result,
    reducerWithOther setUiConfig (invokeOther setUi) (Some state) noop 3 =
      Run (Return result) 4
          [mkCall OtherReducerFn (obj_value state) noop
                  (obj_value (setUi (Some state) noop))] /\
    oref result = Fresh 3 /\
    forall k, prop (oprops result) k =
              match prop (oprops (setUi (Some state) noop)) k with
              | Some v => Some v
              | None => prop (oprops state) k
              end.
Proof.
  apply (other_function_result_is_merged
           setUiConfig (reducerWithOther setUiConfig (invokeOther setUi)) setUi
           (mkObj (Given 1) [("ui", VStr "part"); ("counter", VNum zero)]) noop 3).
  - reflexivity.
  - reflexivity.
  - reflexivity.
  - reflexivity.
  - reflexivity.
  - apply (bool_decide_unpack _). by vm_compute.
Defined.

Lemma part_action_calls_only_its_part_witness :
  calls (reducerWithOther uiConfig (combineOtherReducers uiReducers)
                          (Some counterAtZero) increment 0) =
    [mkCall (PartReducer "counter") (VNum zero) increment (VNum one)] /\
  next_ref (reducerWithOther uiConfig (combineOtherReducers uiReducers)
                             (Some counterAtZero) increment 0) = 1.
Proof.
  apply (part_action_calls_only_its_part
           uiConfig (reducerWithOther uiConfig (combineOtherReducers uiReducers))
           counterAtZero increment 0 counterPart); reflexivity.
Defined.

Lemma plain_action_calls_no_part_witness :
  call_to (mkCall (KeyReducer "ui") VUndefined noop (VStr "closed")) <>
  PartReducer "counter".
Proof.
  apply (plain_action_calls_no_part
           uiConfig (reducerWithOther uiConfig (combineOtherReducers uiReducers))
           counterAtZero noop 0).
  - reflexivity.
  - reflexivity.
  - vm_compute. left. reflexivity.
Defined.

Lemma reducer_throws_only_these_errors_witness :
  let e := Error (undefinedResultMessage noop "a") in
  (isPartAction noop = true /\
   partMap brokenConfig !! ToString (get noop "$$part") = None /\
   inheritedName (ToString (get noop "$$part")) = false /\
   e = ReferenceError (unregisteredPartMessage (get noop "$$part"))) \/
  (isPartAction noop = true /\
   partMap brokenConfig !! ToString (get noop "$$part") = None /\
   inheritedName (ToString (get noop "$$part")) = true /\
   e = TypeError notAFunctionMessage) \/
  (isReducersMap (otherReducer brokenConfig) = true /\
   exists key f,
     prop (reducersOf (otherReducer brokenConfig)) key = Some (EFunction f) /\
     f (get (stateProps (Some (mkObj (Given 1) [("ui", VStr "closed")]))) key) noop =
       VUndefined /\
     e = Error (undefinedResultMessage noop key)).
Proof.
  apply (reducer_throws_only_these_errors
           brokenConfig (reducerWithOther brokenConfig (combineOtherReducers brokenReducers))
           (Some (mkObj (Given 1) [("ui", VStr "closed")])) noop 0).
  - reflexivity.
  - reflexivity.
Defined.

Lemma initial_state_lists_the_parts_witness :
  exists result,
    completion_of (getInitialState [uiPart; counterPart] 0) = Return result /\
    keys (oprops result) = map Part.n [uiPart; counterPart] /\
    forall part, In part [uiPart; counterPart] ->
                 prop (oprops result) (Part.n part) = Some (Part.r part VUndefined []).
Proof.
  apply (initial_state_lists_the_parts [uiPart; counterPart] 0).
  - apply (bool_decide_unpack _). by vm_compute.
  - intros part [<-|[<-|[]]]; reflexivity.
Defined.

Lemma stateful_is_selectable_and_updateable_witness :
  Z.land Flags.COMPOSED_PART Flags.SELECTABLE_PART <> 0%Z /\
  Z.land Flags.COMPOSED_PART Flags.UPDATEABLE_PART <> 0%Z.
Proof.
  apply (stateful_is_selectable_and_updateable Flags.COMPOSED_PART).
  vm_compute. discriminate.
Defined.

Lemma one_sided_kinds_witness :
  Z.land Flags.SELECT_PART Flags.PART = Flags.SELECT_PART /\
  Z.land Flags.UPDATE_PART Flags.PART = Flags.UPDATE_PART.
Proof.
  split.
  - apply (one_sided_kinds Flags.SELECT_PART); [vm_compute; discriminate|reflexivity].
  - apply (one_sided_kinds Flags.UPDATE_PART); [vm_compute; discriminate|reflexivity].
Defined.
Lemma initialization_with_other_reducer_skips_parts_witness :
  call_state (initialCall counterPart) = VUndefined /\
  call_action (initialCall counterPart) = [].
Proof.
  apply (initialization_with_other_reducer_skips_parts
           uiConfig (reducerWithOther uiConfig (combineOtherReducers uiReducers))
           increment 0 (initialCall counterPart) "counter").
  - reflexivity.
  - reflexivity.
  - vm_compute. left. reflexivity.
  - reflexivity.
Defined.

(** The part action [increment] that triggers the initialization is dropped
    when there is an other reducer, and applied when there is none. *)
Example increment_on_undefined :
  completion_of (reducerWithOther uiConfig (combineOtherReducers uiReducers)
                                  None increment 0) =
    Return (mkObj (Fresh 0) [("counter", VNum zero); ("ui", VStr "closed")]) /\
  completion_of (reducerOfParts counterConfig None increment 0) =
    Return (mkObj (Fresh 1) [("counter", VNum one)]).
Proof. by vm_compute. Qed.

Lemma dispatch_on_undefined_is_init_then_dispatch_witness :
  exists initial,
    reducerOfParts counterConfig None noop 0 =
      Run (Return initial) 1 (map initialCall (parts counterConfig)) /\
    oprops initial = initialProps (parts counterConfig) /\
    completion_of (reducerOfParts counterConfig (Some initial) increment 1) =
    completion_of (reducerOfParts counterConfig None increment 0) /\
    next_ref (reducerOfParts counterConfig (Some initial) increment 1) =
    next_ref (reducerOfParts counterConfig None increment 0).
Proof.
  apply (dispatch_on_undefined_is_init_then_dispatch
           counterConfig (reducerOfParts counterConfig) noop increment 0);
    reflexivity.
Defined.
End FurtherExamples.
